(** * lifecycle: API versions and the privilege-separated builder

    A shallow embedding of [api/version.go] and [cmd/lifecycle/builder.go].

    - Go [string]s are [string]s of bytes; [uint64] is [N] with the range
      check written where the code has one; [int] is [Z]; the conversion
      [uint32(x)] is reduction modulo [2^32].
    - A Go [error] value is a term of [error]; [nil] is [None] (or the
      right injection of a sum).
    - The builder talks to the operating system and to the build engine.
      Their answers are the fields of a [World]; what the builder does to
      them is recorded, in order, as a list of [Event]s. *)

From Stdlib Require Import ZArith NArith String Ascii List Lia Bool.
From stdpp Require Import base option list strings pretty gmap.

Local Open Scope string_scope.
Local Open Scope N_scope.

(** ** Characters and the decimal reader of [strconv] *)

Module strconv.

Definition isDigit (c : ascii) : bool :=
  (48 <=? N_of_ascii c) && (N_of_ascii c <=? 57).

Definition digitVal (c : ascii) : N := N_of_ascii c - 48.

Definition maxUint64 : N := 18446744073709551615.

Inductive NumErrorKind := ErrSyntax | ErrRange.

(** The loop of [ParseUint(s, 10, 64)]: a byte that is no digit is a
    syntax error, a value that leaves [uint64] a range error, whichever
    comes first from the left. *)
Fixpoint parseLoop (n : N) (s : string) : NumErrorKind + N :=
  match s with
  | EmptyString => inr n
  | String c r =>
      if isDigit c then
        let n1 := 10 * n + digitVal c in
        if maxUint64 <? n1 then inl ErrRange else parseLoop n1 r
      else inl ErrSyntax
  end.

Definition ParseUint (s : string) : NumErrorKind + N :=
  match s with
  | EmptyString => inl ErrSyntax
  | _ => parseLoop 0 s
  end.

(** The number a digit string denotes, read without any bound. *)
Fixpoint valueFrom (n : N) (s : string) : N :=
  match s with
  | EmptyString => n
  | String c r => valueFrom (10 * n + digitVal c) r
  end.

Definition value (s : string) : N := valueFrom 0 s.

Fixpoint allDigits (s : string) : bool :=
  match s with
  | EmptyString => true
  | String c r => isDigit c && allDigits r
  end.

End strconv.

(** ** Go error values

    The [error] interface, closed over the dynamic types that reach the
    code under study.  [FailErr] and [FailErrCode] are the two
    constructors of package [cmd] as the builder calls them; the exit
    codes and the error types of package [lifecycle] are kept by name. *)

Inductive ExitCode :=
| CodeInvalidArgs
| CodeFailedBuildWithErrors
| CodeBuildError.

Inductive ErrorType :=
| ErrTypeBuildpack
| ErrTypeOther (name : string).

Inductive error :=
| New (msg : string)
| Wrapf (cause : error) (msg : string)
| NumError (func num : string) (kind : strconv.NumErrorKind)
| LifecycleError (RootError : error) (Type_ : ErrorType)
| FailErr (cause : error) (action : list string)
| FailErrCode (cause : error) (code : ExitCode) (action : list string).

(** ** A backtracking matcher for the fragment of [regexp] in use

    Go's [regexp] returns the match that begins leftmost and that, among
    those, a backtracking search would find first.  [run] lists the
    outcomes of such a search in the order in which it would try them. *)

Module regexp.

Inductive Regexp :=
| Bol                       (* ^ *)
| Eol                       (* $ , without the m flag: end of text *)
| Lit (c : ascii)
| Digit                     (* \d , the class [0-9] *)
| Quest (r : Regexp)        (* r? *)
| Star (r : Regexp)         (* r* *)
| Plus (r : Regexp)         (* r+ *)
| Cat (r1 r2 : Regexp)
| Group (r : Regexp).       (* ( r ) *)

(** A thread of the search: the groups closed so far, the number of
    bytes consumed and the text still ahead. *)
Record Thread := { caps : list string; pos : nat; rest : string }.

Definition step1 (p : ascii -> bool) (t : Thread) : list Thread :=
  match rest t with
  | String c s =>
      if p c then [{| caps := caps t; pos := S (pos t); rest := s |}] else []
  | EmptyString => []
  end.

(** Greedy iteration: one more round first, stopping second.  A round
    that consumes nothing is not repeated. *)
Fixpoint iter (round : Thread -> list Thread) (fuel : nat) (t : Thread)
  : list Thread :=
  match fuel with
  | O => [t]
  | S k =>
      flat_map (fun t' => if (pos t <? pos t')%nat then iter round k t' else [])
               (round t) ++ [t]
  end.

Definition close (t0 t : Thread) : Thread :=
  {| caps := caps t ++ [substring 0 (pos t - pos t0) (rest t0)];
     pos := pos t; rest := rest t |}.

Fixpoint run (r : Regexp) (t : Thread) : list Thread :=
  match r with
  | Bol => if (pos t =? 0)%nat then [t] else []
  | Eol => match rest t with EmptyString => [t] | _ => [] end
  | Lit c => step1 (Ascii.eqb c) t
  | Digit => step1 strconv.isDigit t
  | Quest r => run r t ++ [t]
  | Star r => iter (run r) (String.length (rest t)) t
  | Plus r => flat_map (iter (run r) (String.length (rest t))) (run r t)
  | Cat r1 r2 => flat_map (run r2) (run r1 t)
  | Group r => map (close t) (run r t)
  end.

(** The leftmost match at or after the current offset. *)
Fixpoint search (r : Regexp) (n : nat) (s : string) : option (Thread * Thread) :=
  let t0 := {| caps := []; pos := n; rest := s |} in
  match run r t0 with
  | t :: _ => Some (t0, t)
  | [] => match s with
          | EmptyString => None
          | String _ s' => search r (S n) s'
          end
  end.

(** Successive non-overlapping matches, each as the matched text
    followed by the text of its groups. *)
Fixpoint findAll (r : Regexp) (fuel n : nat) (s : string) : list (list string) :=
  match fuel with
  | O => []
  | S k =>
      match search r n s with
      | None => []
      | Some (t0, t) =>
          (substring 0 (pos t - pos t0) (rest t0) :: caps t)
            :: (if (pos t0 <? pos t)%nat then findAll r k (pos t) (rest t)
                else match rest t0 with
                     | EmptyString => []
                     | String _ s' => findAll r k (S (pos t0)) s'
                     end)
      end
  end.

Definition FindAllStringSubmatch (r : Regexp) (s : string) : list (list string) :=
  findAll r (S (String.length s)) 0 s.

End regexp.

(** ** api/version.go *)

Module api.
Import regexp.

(** The pattern of [regex]: start of text, an optional [v], a group of
    one or more digits, an optional dot, a group of zero or more
    digits, end of text. *)
Definition regex : Regexp :=
  Cat Bol
    (Cat (Quest (Lit "v"))
      (Cat (Group (Plus Digit))
        (Cat (Quest (Lit "."))
          (Cat (Group (Star Digit)) Eol)))).

Record Version := { Major : N; Minor : N }.

Definition NewVersion (v : string) : error + Version :=
  match FindAllStringSubmatch regex v with
  | [] => inl (New ("could not parse '" +:+ v +:+ "' as version"))
  | m0 :: _ =>
      match m0 with
      | [_; major_s; minor_s] =>
          match strconv.ParseUint major_s with
          | inl k => inl (Wrapf (NumError "ParseUint" major_s k)
                                ("parsing Major '" +:+ major_s +:+ "'"))
          | inr major =>
              match minor_s with
              | EmptyString => inr {| Major := major; Minor := 0 |}
              | _ =>
                  match strconv.ParseUint minor_s with
                  | inl k => inl (Wrapf (NumError "ParseUint" minor_s k)
                                        ("parsing Minor '" +:+ minor_s +:+ "'"))
                  | inr minor => inr {| Major := major; Minor := minor |}
                  end
              end
          end
      | _ => inl (New ("could not parse version '" +:+ v +:+ "'"))
      end
  end.

(** [MustParse] panics where [NewVersion] fails; the panic value is the
    left injection. *)
Definition MustParse (v : string) : error + Version := NewVersion v.

(** [UnmarshalText] writes through its receiver: the result is the
    receiver after the call and the error returned. *)
Definition UnmarshalText (v : Version) (text : string) : Version * option error :=
  let s := text in
  match NewVersion s with
  | inl err => (v, Some (Wrapf err ("invalid api version '" +:+ s +:+ "'")))
  | inr parsedVersion =>
      ({| Major := Major parsedVersion; Minor := Minor parsedVersion |}, None)
  end.

(** One field of [Compare]: the answer it returns, or [None] where
    control falls through to what follows. *)
Definition compareField (a b : N) : option Z :=
  if negb (a =? b) then
    if a <? b then Some (-1)%Z
    else if b <? a then Some 1%Z
    else None
  else None.

Definition Compare (v o : Version) : Z :=
  match compareField (Major v) (Major o) with
  | Some r => r
  | None =>
      match compareField (Minor v) (Minor o) with
      | Some r => r
      | None => 0%Z
      end
  end.

Definition Equal (v o : Version) : bool := (Compare v o =? 0)%Z.

Definition IsSupersetOf (v o : Version) : bool :=
  if Major v =? 0 then Equal v o
  else (Major v =? Major o) && (Minor o <=? Minor v).

(** [String]: [fmt.Sprintf] with the verb [%d] writes an unsigned number
    in decimal, without sign or leading zeros. *)
Definition VersionString (v : Version) : string :=
  pretty (Major v) +:+ "." +:+ pretty (Minor v).

(** [MarshalText]: the bytes of [String], and never an error. *)
Definition MarshalText (v : Version) : string * option error :=
  (VersionString v, None).

End api.

(** ** Types of the packages the builder drives

    Only what [builder.go] reads or writes of them. *)

Module lifecycle.

(** Modelled from the spec: the plugin descriptor of package
    [lifecycle], which is not among the sources; an identifier and the
    API version string the plugin declares. *)
Record Buildpack := { ID : string; API : string }.

Record BuildpackGroup := { Group : list Buildpack }.

(** Modelled from the spec: [BuildPlan] and [BuildMetadata] of package
    [lifecycle] are opaque to the builder, which hands them on as they
    are; they are carried as uninterpreted documents. *)
Record BuildPlan := { planDocument : string }.
Record BuildMetadata := { metadataDocument : string }.

(** The snapshotter made by [snapshot.NewKanikoSnapshotter]. *)
Record Snapshotter := { RootDir : string }.

(** Modelled from the spec: the build environment that [env.NewBuildEnv]
    makes; package [env] is not among the sources and the builder hands
    the value on as it is; it is carried as the variables it holds. *)
Record BuildEnv := { Vars : list string }.

(** [lifecycle.Builder] as [createBuilder] fills it; the two loggers
    [Out] and [Err] always wrap the standard streams and are omitted. *)
Record Builder := {
  AppDir : string;
  LayersDir : string;
  PlatformDir : string;
  BuildpacksDir : string;
  PlatformAPI : api.Version;
  Env : BuildEnv;
  Group_ : BuildpackGroup;
  StackGroup : BuildpackGroup;
  Plan : BuildPlan;
  Snapshotter_ : Snapshotter
}.

End lifecycle.

Module exec.

(** [syscall.Credential]: both fields are [uint32]. *)
Record Credential := { Uid : Z; Gid : Z }.

(** [exec.Cmd] as [buildAsSubProcess] sets it up; [Stdout] and
    [Stderr] are always the parent's own streams. *)
Record Cmd := { Path : string; Args : list string; SysProcAttr : Credential }.

(** [exec.Command(name, arg...)]: the name is also the first argument. *)
Definition Command (name : string) (arg : list string) (cred : Credential) : Cmd :=
  {| Path := name; Args := name :: arg; SysProcAttr := cred |}.

End exec.

(** ** cmd/lifecycle/builder.go *)

Module main.
Import lifecycle exec.

Definition uint32 (x : Z) : Z := (x mod 2 ^ 32)%Z.

Record buildArgs := {
  uid : Z;
  gid : Z;
  groupPath : string;
  planPath : string;
  buildpacksDir : string;
  layersDir : string;
  appDir : string;
  platformDir : string;
  platformAPI : string
}.

(** [buildCmd] embeds [buildArgs]. *)
Record buildCmd := { stackGroupPath : string; ba : buildArgs }.

(** What the builder does to the outside, in the order it does it. *)
Inductive Event :=
| EvNewKanikoSnapshotter (root : string)
| EvStackBuild (builder : Builder)
| EvRunAs (uid gid : Z)
| EvSetEnvironmentForUser (uid : Z)
| EvBuild (builder : Builder)
| EvWriteTOML (path : string) (md : BuildMetadata)
| EvRun (c : Cmd).

(** The outside: the files, the process, the build engine, and the
    constants and path functions of packages that are not among the
    sources.  Every theorem below holds for every [World]. *)
Record World := {
  (* the files that [os.Stat] finds, by path: the content of each, or
     the error that opening it gives *)
  files : gmap string (error + string);
  (* TOML decoding of a group document and of a plan document *)
  decodeGroup : string -> error + BuildpackGroup;
  decodePlan : string -> error + BuildPlan;
  (* [priv.IsPrivileged()] *)
  IsPrivileged : bool;
  (* [os.Executable()], [os.Environ()] *)
  Executable : error + string;
  Environ : list string;
  (* [env.NewBuildEnv] *)
  NewBuildEnv : list string -> BuildEnv;
  (* [snapshot.NewKanikoSnapshotter] *)
  NewKanikoSnapshotter : string -> error + Snapshotter;
  (* the methods [StackBuild] and [Build] of [lifecycle.Builder] *)
  StackBuild : Builder -> error + BuildMetadata;
  Build : Builder -> error + BuildMetadata;
  (* [priv.RunAs], [priv.SetEnvironmentForUser], [lifecycle.WriteTOML] *)
  RunAs : Z -> Z -> option error;
  SetEnvironmentForUser : Z -> option error;
  WriteTOML : string -> BuildMetadata -> option error;
  (* the method [Run] of [exec.Cmd] *)
  Run : Cmd -> option error;
  (* [filepath.Dir], [filepath.Join] *)
  Dir : string -> string;
  Join : string -> string -> string;
  (* [cmd.FlagNameGroupPath], [cmd.FlagNamePlanPath] *)
  FlagNameGroupPath : string;
  FlagNamePlanPath : string;
  (* [launch.GetMetadataFilePath] *)
  GetMetadataFilePath : string -> string;
  (* the buildpack API this lifecycle supports *)
  BuildpackAPI : api.Version
}.

(** A call ends by returning, by returning an error, or by a panic. *)
Inductive Outcome (A : Type) :=
| Ok (a : A)
| Err (e : error)
| Panic (e : error).
Arguments Ok {A} a.
Arguments Err {A} e.
Arguments Panic {A} e.

(** A computation: the events it caused and how it ended. *)
Definition M (A : Type) : Type := (list Event * Outcome A)%type.

#[export] Instance M_ret : MRet M := fun A a => ([], Ok a).
#[export] Instance M_bind : MBind M := fun A B k m =>
  match m with
  | (tr, Ok a) => let '(tr', o) := k a in ((tr ++ tr')%list, o)
  | (tr, Err e) => (tr, Err e)
  | (tr, Panic e) => (tr, Panic e)
  end.

Definition trace {A} (m : M A) : list Event := fst m.
Definition outcome {A} (m : M A) : Outcome A := snd m.

Definition fail {A} (e : error) : M A := ([], Err e).
Definition panic {A} (e : error) : M A := ([], Panic e).

(** A call to the outside: the event, then its answer. *)
Definition call {A} (ev : Event) (r : error + A) : M A :=
  ([ev], match r with inl e => Err e | inr a => Ok a end).

Definition call_ (ev : Event) (r : option error) : M unit :=
  ([ev], match r with Some e => Err e | None => Ok tt end).

(** A Go function that only returns an error, run for its error. *)
Definition check (r : option error) : M unit :=
  match r with Some e => fail e | None => mret tt end.

Definition Stat (W : World) (path : string) : bool :=
  bool_decide (is_Some (files W !! path)).

Definition openFile (W : World) (path : string) : error + string :=
  match files W !! path with
  | Some r => r
  | None => inl (New ("open " +:+ path +:+ ": no such file or directory"))
  end.

(** Modelled from the spec: [lifecycle.ReadGroup], which is not among
    the sources; it opens the file at the path and decodes the group
    document in it. *)
Definition ReadGroup (W : World) (path : string) : error + BuildpackGroup :=
  match openFile W path with
  | inl e => inl e
  | inr doc => decodeGroup W doc
  end.

(** [toml.DecodeFile] on a plan. *)
Definition DecodeFile (W : World) (path : string) : error + BuildPlan :=
  match openFile W path with
  | inl e => inl e
  | inr doc => decodePlan W doc
  end.

Definition emptyGroup : BuildpackGroup := {| Group := [] |}.

(** Modelled from the spec: [verifyBuildpackApis], which is not among
    the sources; every plugin of the group, in order, must declare an
    API version that parses and of which the supported one is a
    superset, or the call fails with the invalid-arguments code. *)
Fixpoint verifyBuildpackApis (W : World) (group : list Buildpack) : option error :=
  match group with
  | [] => None
  | bp :: more =>
      match api.NewVersion (API bp) with
      | inl e => Some (FailErrCode e CodeInvalidArgs ["set API"])
      | inr requested =>
          if api.IsSupersetOf (BuildpackAPI W) requested
          then verifyBuildpackApis W more
          else Some (FailErrCode
                       (New ("buildpack API version '" +:+ API bp
                             +:+ "' is incompatible with the lifecycle"))
                       CodeInvalidArgs ["set API"])
      end
  end.

(** [readData]; where it returns an error the other three results are
    never read by a caller and are left out. *)
Definition readData (W : World) (b : buildCmd)
  : error + (BuildpackGroup * BuildpackGroup * BuildPlan) :=
  match (if Stat W (groupPath (ba b))
         then ReadGroup W (groupPath (ba b)) else inr emptyGroup) with
  | inl err => inl (FailErr err ["read buildpack group"])
  | inr group =>
      match (if Stat W (stackGroupPath b)
             then ReadGroup W (stackGroupPath b) else inr emptyGroup) with
      | inl err => inl (FailErr err ["read stack buildpack group"])
      | inr stackGroup =>
          match DecodeFile W (planPath (ba b)) with
          | inl err => inl (FailErr err ["parse detect plan"])
          | inr plan => inr (group, stackGroup, plan)
          end
      end
  end.

Definition Args (nargs : nat) : option error :=
  if negb (nargs =? 0)%nat
  then Some (FailErrCode (New "received unexpected arguments")
                         CodeInvalidArgs ["parse arguments"])
  else None.

Definition Privileges (W : World) (b : buildCmd) : option error :=
  match readData W b with
  | inl err => Some err
  | inr (_, stackGroup, _) =>
      if (length (Group stackGroup) =? 0)%nat && IsPrivileged W
      then Some (FailErr (New "refusing to run as root") ["build"])
      else None
  end.

Definition createBuilder (W : World) (a : buildArgs)
    (group stackGroup : BuildpackGroup) (plan : BuildPlan) : M Builder :=
  stackSnapshotter ← call (EvNewKanikoSnapshotter "/") (NewKanikoSnapshotter W "/");
  match api.MustParse (platformAPI a) with
  | inl e => panic e
  | inr v =>
      mret {| AppDir := appDir a;
              LayersDir := layersDir a;
              PlatformDir := platformDir a;
              BuildpacksDir := buildpacksDir a;
              PlatformAPI := v;
              Env := NewBuildEnv W (Environ W);
              Group_ := group;
              StackGroup := stackGroup;
              Plan := plan;
              Snapshotter_ := stackSnapshotter |}
  end.

(** The classification shared by [stackBuild] and [build]: an error of
    dynamic type [lifecycle.Error] and of type [ErrTypeBuildpack] is
    reported by its cause, every other error as it is. *)
Definition classify (err : error) (action : string) : error :=
  match err with
  | LifecycleError cause ErrTypeBuildpack =>
      FailErrCode cause CodeFailedBuildWithErrors [action]
  | _ => FailErrCode err CodeBuildError [action]
  end.

(** [if err != nil { return f(err) }] around a call. *)
Definition orReturn {A} (m : M A) (f : error -> error) : M A :=
  match m with
  | (tr, Err e) => (tr, Err (f e))
  | _ => m
  end.

Definition stackBuild (W : World) (builder : Builder) : M unit :=
  orReturn (call (EvStackBuild builder) (StackBuild W builder))
           (fun err => classify err "stack-build");;
  mret tt.

Definition buildAsSubProcess (W : World) (a : buildArgs) : M unit :=
  match Executable W with
  | inl err => fail err
  | inr exe =>
      let c := Command (Join W (Dir W exe) "builder")
                 [ "-" +:+ FlagNameGroupPath W; groupPath a;
                   "-" +:+ FlagNamePlanPath W; planPath a ]
                 {| Uid := uint32 (uid a); Gid := uint32 (gid a) |} in
      call_ (EvRun c) (Run W c)
  end.

Definition build (W : World) (a : buildArgs) (builder : Builder) : M unit :=
  orReturn (call_ (EvRunAs (uid a) (gid a)) (RunAs W (uid a) (gid a)))
           (fun err => FailErr err ["exec as user " +:+ pretty (uid a)
                                    +:+ ":" +:+ pretty (gid a)]);;
  orReturn (call_ (EvSetEnvironmentForUser (uid a)) (SetEnvironmentForUser W (uid a)))
           (fun err => FailErr err ["set environment for user " +:+ pretty (uid a)]);;
  md ← orReturn (call (EvBuild builder) (Build W builder))
                (fun err => classify err "build");
  let path := GetMetadataFilePath W (layersDir a) in
  orReturn (call_ (EvWriteTOML path md) (WriteTOML W path md))
           (fun err => FailErr err ["write build metadata"]).

Definition buildAll (W : World) (a : buildArgs)
    (group stackGroup : BuildpackGroup) (plan : BuildPlan) : M unit :=
  check (verifyBuildpackApis W (Group group));;
  check (verifyBuildpackApis W (Group stackGroup));;
  builder ← createBuilder W a group stackGroup plan;
  stackBuild W builder;;
  if (0 <? length (Group group))%nat
  then buildAsSubProcess W a
  else mret tt.

Definition Exec (W : World) (b : buildCmd) : M unit :=
  match readData W b with
  | inl err => fail err
  | inr (group, stackGroup, plan) =>
      if (0 <? length (Group stackGroup))%nat
      then buildAll W (ba b) group stackGroup plan
      else buildAsSubProcess W (ba b)
  end.

(** Modelled from the spec: the command driver of package [cmd], which
    is not among the sources.  It checks the arguments, then asks the
    command whether it may run with the privileges it has, and only
    then executes it; the first error ends the invocation. *)
Definition Invoke (W : World) (nargs : nat) (b : buildCmd) : M unit :=
  check (Args nargs);;
  check (Privileges W b);;
  Exec W b.

End main.

(** ** Vocabulary of the statements *)

Module syntax.
Import strconv.

(** The longest prefix of digits, and what follows it. *)
Fixpoint spanDigits (s : string) : string * string :=
  match s with
  | String c r =>
      if isDigit c then let (d, t) := spanDigits r in (String c d, t)
      else (EmptyString, s)
  | EmptyString => (EmptyString, EmptyString)
  end.

Definition skip (c : ascii) (s : string) : string :=
  match s with
  | String c' r => if Ascii.eqb c c' then r else s
  | EmptyString => EmptyString
  end.

(** A left-to-right reading of the version pattern: the two groups,
    when the text matches. *)
Definition scan (v : string) : option (string * string) :=
  let (a, s2) := spanDigits (skip "v" v) in
  match a with
  | EmptyString => None
  | _ =>
      let (b, s4) := spanDigits (skip "." s2) in
      match s4 with
      | EmptyString => Some (a, b)
      | _ => None
      end
  end.

(** The threads of a greedy run of digits, longest first. *)
Fixpoint digitSplits (cs : list string) (n : nat) (s : string) : list regexp.Thread :=
  let t := {| regexp.caps := cs; regexp.pos := n; regexp.rest := s |} in
  match s with
  | String c r => if isDigit c then (digitSplits cs (S n) r ++ [t])%list else [t]
  | EmptyString => [t]
  end.

(** The version pattern from its right end: the minor group and the end
    of text; the optional dot before them; the major group before that. *)
Definition minorPart : regexp.Regexp :=
  regexp.Cat (regexp.Group (regexp.Star regexp.Digit)) regexp.Eol.
Definition dotPart : regexp.Regexp :=
  regexp.Cat (regexp.Quest (regexp.Lit ".")) minorPart.
Definition majorPart : regexp.Regexp :=
  regexp.Cat (regexp.Group (regexp.Plus regexp.Digit)) dotPart.

Definition start (n : nat) (s : string) : regexp.Thread :=
  {| regexp.caps := []; regexp.pos := n; regexp.rest := s |}.

(** The thread after an optional literal byte. *)
Definition after (c : ascii) (t : regexp.Thread) : regexp.Thread :=
  {| regexp.caps := regexp.caps t;
     regexp.pos := regexp.pos t
       + (String.length (regexp.rest t) - String.length (skip c (regexp.rest t)));
     regexp.rest := skip c (regexp.rest t) |}.

Definition startsWithDigit (s : string) : bool :=
  match s with
  | String c _ => isDigit c
  | EmptyString => false
  end.

(** The spec's words for a version text: an optional leading [v], then
    digits, then an optional minor segment, a dot and digits. *)
Definition shaped (s : string) (v : bool) (major : string) (minor : option string)
  : Prop :=
  s = (if v then "v" else "") +:+ major
        +:+ match minor with Some m => "." +:+ m | None => "" end
  /\ major <> "" /\ allDigits major = true
  /\ match minor with Some m => allDigits m = true | None => True end.

Definition matchesPattern (s : string) : Prop :=
  exists v major minor, shaped s v major minor.

(** The digits of the minor segment; none where the segment is missing. *)
Definition minorDigits (minor : option string) : string :=
  match minor with Some m => m | None => "" end.

(** A text of the version shape whose two numbers fit in 64 bits, and
    the version it denotes. *)
Definition denotes (s : string) (ver : api.Version) : Prop :=
  exists v major minor,
    shaped s v major minor
    /\ value major <= maxUint64
    /\ value (minorDigits minor) <= maxUint64
    /\ ver = {| api.Major := value major; api.Minor := value (minorDigits minor) |}.

End syntax.

(** ** Vocabulary of the statements about the builder *)

Module observe.
Import lifecycle exec main.

(** An execution of app plugins: the build run in this process, or the
    child process that the delegate launches to run it. *)
Definition isAppExecution (ev : Event) : bool :=
  match ev with
  | EvBuild _ | EvRun _ => true
  | _ => false
  end.

(** An execution of plugins of either group. *)
Definition isPluginExecution (ev : Event) : bool :=
  match ev with
  | EvStackBuild _ | EvBuild _ | EvRun _ => true
  | _ => false
  end.

(** A change of identity of the running process. *)
Definition isPrivilegeDrop (ev : Event) : bool :=
  match ev with
  | EvRunAs _ _ => true
  | _ => false
  end.




(** What is found at the path of a group: no file and the empty group,
    or a file that opens and decodes to the group. *)
Definition groupAt (W : World) (path : string) (g : BuildpackGroup) : Prop :=
  (files W !! path = None /\ g = emptyGroup)
  \/ (exists doc, files W !! path = Some (inr doc) /\ decodeGroup W doc = inr g).

(** A group file that is there and cannot be opened or decoded. *)
Definition malformedGroupAt (W : World) (path : string) : Prop :=
  (exists e, files W !! path = Some (inl e))
  \/ (exists doc e, files W !! path = Some (inr doc) /\ decodeGroup W doc = inl e).

Definition planAt (W : World) (path : string) (plan : BuildPlan) : Prop :=
  exists doc, files W !! path = Some (inr doc) /\ decodePlan W doc = inr plan.

(** A plan file that is missing, or cannot be opened or decoded. *)
Definition noPlanAt (W : World) (path : string) : Prop :=
  files W !! path = None
  \/ (exists e, files W !! path = Some (inl e))
  \/ (exists doc e, files W !! path = Some (inr doc) /\ decodePlan W doc = inl e).

Definition inUint32 (x : Z) : Prop := (0 <= x < 2 ^ 32)%Z.

Definition apisVerified (W : World) (group stackGroup : BuildpackGroup) : Prop :=
  verifyBuildpackApis W (Group group) = None
  /\ verifyBuildpackApis W (Group stackGroup) = None.

(** Where a run of [buildAll] ends: at the check of the API versions; at
    the making of the snapshotter; at the reading of the platform API; at
    the stack build; after the stack build, there being no app plugin; or
    with the delegate. *)
Inductive buildAllEnds (W : World) (a : buildArgs) (group stackGroup : BuildpackGroup)
  : M unit -> Prop :=
| ends_at_verification e :
    verifyBuildpackApis W (Group group) = Some e
    \/ (verifyBuildpackApis W (Group group) = None
        /\ verifyBuildpackApis W (Group stackGroup) = Some e) ->
    buildAllEnds W a group stackGroup ([], Err e)
| ends_at_snapshotter e :
    apisVerified W group stackGroup ->
    NewKanikoSnapshotter W "/" = inl e ->
    buildAllEnds W a group stackGroup ([EvNewKanikoSnapshotter "/"], Err e)
| ends_at_platformAPI e :
    apisVerified W group stackGroup ->
    api.MustParse (platformAPI a) = inl e ->
    buildAllEnds W a group stackGroup ([EvNewKanikoSnapshotter "/"], Panic e)
| ends_at_stackBuild builder e :
    apisVerified W group stackGroup ->
    StackBuild W builder = inl e ->
    buildAllEnds W a group stackGroup
      ([EvNewKanikoSnapshotter "/"; EvStackBuild builder],
       Err (classify e "stack-build"))
| ends_after_stackBuild builder md :
    apisVerified W group stackGroup ->
    StackBuild W builder = inr md ->
    Group group = [] ->
    buildAllEnds W a group stackGroup
      ([EvNewKanikoSnapshotter "/"; EvStackBuild builder], Ok tt)
| ends_with_delegate builder md :
    apisVerified W group stackGroup ->
    StackBuild W builder = inr md ->
    Group group <> [] ->
    buildAllEnds W a group stackGroup
      (([EvNewKanikoSnapshotter "/"; EvStackBuild builder]
        ++ trace (buildAsSubProcess W a))%list,
       outcome (buildAsSubProcess W a)).

End observe.

(** ** Worlds to run the builder in *)

Module examples.
Import lifecycle exec main.

Definition appGroup : BuildpackGroup :=
  {| Group := [{| ID := "example/node"; API := "0.2" |}] |}.
Definition stackGroup : BuildpackGroup :=
  {| Group := [{| ID := "example/apt"; API := "0.2" |}] |}.
(** A plugin written for an API of another major version. *)
Definition oldGroup : BuildpackGroup :=
  {| Group := [{| ID := "example/legacy"; API := "1.0" |}] |}.

Definition decodeGroup (doc : string) : error + BuildpackGroup :=
  if String.eqb doc "app" then inr appGroup
  else if String.eqb doc "stack" then inr stackGroup
  else if String.eqb doc "old" then inr oldGroup
  else inl (New "toml: cannot decode the group").

Definition decodePlan (doc : string) : error + BuildPlan :=
  if String.eqb doc "plan" then inr {| planDocument := doc |}
  else inl (New "toml: cannot decode the plan").

Definition metadata : BuildMetadata := {| metadataDocument := "metadata" |}.

(** A world in which every call to the outside succeeds, but for the
    two builds, which answer as given. *)
Definition world (fs : gmap string (error + string)) (root : bool)
    (stack app : error + BuildMetadata) : World :=
  {| files := fs;
     main.decodeGroup := decodeGroup;
     main.decodePlan := decodePlan;
     IsPrivileged := root;
     Executable := inr "/cnb/lifecycle/lifecycle";
     Environ := ["PATH=/bin"];
     NewBuildEnv := fun vars => {| Vars := vars |};
     NewKanikoSnapshotter := fun root => inr {| RootDir := root |};
     StackBuild := fun _ => stack;
     Build := fun _ => app;
     RunAs := fun _ _ => None;
     SetEnvironmentForUser := fun _ => None;
     WriteTOML := fun _ _ => None;
     Run := fun _ => None;
     Dir := fun _ => "/cnb/lifecycle";
     Join := fun d f => d +:+ "/" +:+ f;
     FlagNameGroupPath := "group";
     FlagNamePlanPath := "plan";
     GetMetadataFilePath := fun layers => layers +:+ "/config/metadata.toml";
     BuildpackAPI := {| api.Major := 0; api.Minor := 2 |} |}.

Definition args (u g : Z) : buildArgs :=
  {| uid := u; gid := g;
     groupPath := "/layers/group.toml";
     planPath := "/layers/plan.toml";
     buildpacksDir := "/cnb/buildpacks";
     layersDir := "/layers";
     appDir := "/workspace";
     platformDir := "/platform";
     platformAPI := "0.3" |}.

Definition command (u g : Z) : buildCmd :=
  {| stackGroupPath := "/layers/stack-group.toml"; ba := args u g |}.

(** The files of a build with stack plugins, of one without, and of one
    without whose only app plugin is incompatible. *)
Definition twoStageFiles : gmap string (error + string) :=
  <["/layers/group.toml" := inr "app"]>
    (<["/layers/stack-group.toml" := inr "stack"]>
      (<["/layers/plan.toml" := inr "plan"]> ∅)).
Definition appOnlyFiles : gmap string (error + string) :=
  <["/layers/group.toml" := inr "app"]> (<["/layers/plan.toml" := inr "plan"]> ∅).
Definition oldAppFiles : gmap string (error + string) :=
  <["/layers/group.toml" := inr "old"]> (<["/layers/plan.toml" := inr "plan"]> ∅).
Definition planOnlyFiles : gmap string (error + string) :=
  <["/layers/plan.toml" := inr "plan"]> ∅.

Definition pluginFailure : error :=
  LifecycleError (New "exit status 1") ErrTypeBuildpack.

Definition builderOf (W : World) (grp stk : BuildpackGroup) : Builder :=
  {| AppDir := "/workspace";
     LayersDir := "/layers";
     PlatformDir := "/platform";
     BuildpacksDir := "/cnb/buildpacks";
     PlatformAPI := {| api.Major := 0; api.Minor := 3 |};
     Env := NewBuildEnv W (Environ W);
     Group_ := grp;
     StackGroup := stk;
     Plan := {| planDocument := "plan" |};
     Snapshotter_ := {| RootDir := "/" |} |}.

Definition child (u g : Z) : Cmd :=
  {| exec.Path := "/cnb/lifecycle/builder";
     exec.Args := ["/cnb/lifecycle/builder"; "-group"; "/layers/group.toml";
                   "-plan"; "/layers/plan.toml"];
     exec.SysProcAttr := {| Uid := u; Gid := g |} |}.

Definition thePlan : BuildPlan := {| planDocument := "plan" |}.

(** A privileged two-stage build in which every call succeeds, and one
    whose stack build a plugin fails. *)
Definition twoStage : World := world twoStageFiles true (inr metadata) (inr metadata).
Definition twoStageFailing : World :=
  world twoStageFiles true (inl pluginFailure) (inr metadata).
(** Unprivileged builds without stack plugins. *)
Definition appOnly : World := world appOnlyFiles false (inr metadata) (inr metadata).
Definition oldApp : World := world oldAppFiles false (inr metadata) (inr metadata).
Definition planOnly : World := world planOnlyFiles false (inr metadata) (inr metadata).
(** A privileged invocation without stack plugins. *)
Definition appOnlyAsRoot : World := world appOnlyFiles true (inr metadata) (inr metadata).

Definition incompatible : error :=
  FailErrCode (New "buildpack API version '1.0' is incompatible with the lifecycle")
              CodeInvalidArgs ["set API"].




End examples.

(** ** Vocabulary of the further statements *)

Module further.
Import lifecycle exec main.

(** A version whose two fields are [uint64] values. *)
Definition fits (v : api.Version) : Prop :=
  api.Major v <= strconv.maxUint64 /\ api.Minor v <= strconv.maxUint64.

(** What only [build] does: the change of identity, the loading of the
    environment, the build in this process, the writing of the metadata. *)
Definition isInProcessStep (ev : Event) : bool :=
  match ev with
  | EvRunAs _ _ | EvSetEnvironmentForUser _ | EvBuild _ | EvWriteTOML _ _ => true
  | _ => false
  end.

Definition isChildRun (ev : Event) : bool :=
  match ev with
  | EvRun _ => true
  | _ => false
  end.

(** The files of a build with stack plugins and no app group file. *)
Definition stackOnlyFiles : gmap string (error + string) :=
  <["/layers/stack-group.toml" := inr "stack"]>
    (<["/layers/plan.toml" := inr "plan"]> ∅).
Definition stackOnly : World :=
  examples.world stackOnlyFiles true (inr examples.metadata) (inr examples.metadata).

(** Files whose app group does not decode, and files without a plan. *)
Definition badGroupFiles : gmap string (error + string) :=
  <["/layers/group.toml" := inr "garbage"]> ∅.
Definition badGroup : World :=
  examples.world badGroupFiles false (inr examples.metadata) (inr examples.metadata).

End further.

(** * Proofs *)

(** ** The decimal reader *)

Module strconv_facts.
Import strconv.

Lemma parseLoop_spec s : forall n,
  n <= maxUint64 ->
  parseLoop n s =
    if allDigits s
    then (if valueFrom n s <=? maxUint64 then inr (valueFrom n s) else inl ErrRange)
    else match parseLoop n s with inl k => inl k | inr _ => inl ErrSyntax end.
Proof.
  induction s as [|c r IH]; intros n Hn; simpl.
  - destruct (N.leb_spec (n) maxUint64); [reflexivity | lia].
  - destruct (isDigit c) eqn:Hc; simpl; [|reflexivity].
    destruct (N.ltb_spec maxUint64 (10 * n + digitVal c)) as [Hlt|Hle].
    + destruct (allDigits r); [|reflexivity].
      assert (H : forall t m, m <= valueFrom m t).
      { clear. induction t as [|c t IH]; intros m; simpl; [lia|].
        specialize (IH (10 * m + digitVal c)). lia. }
      specialize (H r (10 * n + digitVal c)).
      destruct (N.leb_spec (valueFrom (10 * n + digitVal c) r) maxUint64); [lia|reflexivity].
    + apply IH. exact Hle.
Qed.

(** [ParseUint] answers exactly on the non-empty digit strings whose
    value fits in 64 bits, with that value. *)
Lemma ParseUint_inr s n :
  ParseUint s = inr n <->
  s <> "" /\ allDigits s = true /\ value s = n /\ n <= maxUint64.
Proof.
  unfold ParseUint, value. destruct s as [|c r].
  - split; [discriminate | intros [H _]; congruence].
  - assert (H0 : 0 <= maxUint64) by (unfold maxUint64; lia).
    pose proof (parseLoop_spec (String c r) 0 H0) as E.
    destruct (allDigits (String c r)) eqn:Hd.
    + rewrite E. destruct (N.leb_spec (valueFrom 0 (String c r)) maxUint64).
      * split; [intros [= <-]; repeat split; [discriminate|assumption]
               | intros (_ & _ & <- & _); reflexivity].
      * split; [discriminate | intros (_ & _ & <- & ?); lia].
    + split; [|intros (_ & ? & _); discriminate].
      intros Hp. rewrite Hp in E. discriminate.
Qed.

End strconv_facts.

(** ** The matcher on the version pattern *)

Module regexp_facts.
Import strconv regexp syntax.

Lemma spanDigits_String c r :
  spanDigits (String c r) =
    if isDigit c then (String c (fst (spanDigits r)), snd (spanDigits r))
    else (EmptyString, String c r).
Proof. simpl. destruct (isDigit c), (spanDigits r); reflexivity. Qed.

Lemma append_String c a b : String c a +:+ b = String c (a +:+ b).
Proof. reflexivity. Qed.

Lemma append_empty_l a : "" +:+ a = a.
Proof. reflexivity. Qed.

Lemma spanDigits_app s :
  s = fst (spanDigits s) +:+ snd (spanDigits s).
Proof.
  induction s as [|c r IH]; [reflexivity|].
  rewrite spanDigits_String. destruct (isDigit c); simpl; [|reflexivity].
  rewrite append_String. f_equal. exact IH.
Qed.

Lemma spanDigits_allDigits s : allDigits (fst (spanDigits s)) = true.
Proof.
  induction s as [|c r IH]; [reflexivity|].
  rewrite spanDigits_String. destruct (isDigit c) eqn:E; simpl; [|reflexivity].
  rewrite E. exact IH.
Qed.

Lemma spanDigits_stop s : startsWithDigit (snd (spanDigits s)) = false.
Proof.
  induction s as [|c r IH]; [reflexivity|].
  rewrite spanDigits_String. destruct (isDigit c) eqn:E; simpl; [exact IH|exact E].
Qed.

Lemma spanDigits_no_digit s :
  startsWithDigit s = false -> spanDigits s = (EmptyString, s).
Proof.
  destruct s as [|c r]; [reflexivity|]. simpl. intros ->. reflexivity.
Qed.

(** A maximal run of digits followed by a text that starts with none
    is what [spanDigits] finds. *)
Lemma spanDigits_unique d r :
  allDigits d = true -> startsWithDigit r = false ->
  spanDigits (d +:+ r) = (d, r).
Proof.
  intros Hd Hr. induction d as [|c d IH].
  - rewrite append_empty_l. apply spanDigits_no_digit. exact Hr.
  - simpl in Hd. apply andb_prop in Hd as [Hc Hd].
    rewrite append_String, spanDigits_String, Hc, (IH Hd). reflexivity.
Qed.

Lemma iter_digits s : forall fuel cs n,
  (String.length s <= fuel)%nat ->
  iter (run Digit) fuel {| caps := cs; pos := n; rest := s |} = digitSplits cs n s.
Proof.
  induction s as [|c r IH]; intros fuel cs n Hf.
  - destruct fuel; reflexivity.
  - destruct fuel as [|k]; [simpl in Hf; lia|].
    cbn [iter digitSplits].
    change (run Digit {| caps := cs; pos := n; rest := String c r |})
      with (step1 isDigit {| caps := cs; pos := n; rest := String c r |}).
    unfold step1. cbn [rest caps pos]. destruct (isDigit c); [|reflexivity].
    cbn [flat_map pos]. rewrite (proj2 (Nat.ltb_lt n (S n))) by lia.
    rewrite app_nil_r, IH; [reflexivity|]. simpl in Hf. lia.
Qed.

Lemma digitSplits_shape s : forall cs n,
  exists tl,
    digitSplits cs n s =
      {| caps := cs; pos := n + String.length (fst (spanDigits s));
         rest := snd (spanDigits s) |} :: tl
    /\ Forall (fun t => startsWithDigit (rest t) = true
                        /\ snd (spanDigits (rest t)) = snd (spanDigits s)) tl.
Proof.
  induction s as [|c r IH]; intros cs n.
  - exists []. simpl. rewrite Nat.add_0_r. split; [reflexivity|constructor].
  - rewrite spanDigits_String. simpl digitSplits.
    destruct (isDigit c) eqn:E.
    + destruct (IH cs (S n)) as (tl & -> & Htl).
      exists (tl ++ [{| caps := cs; pos := n; rest := String c r |}])%list.
      split.
      * simpl. do 2 f_equal. lia.
      * apply Forall_app. split; [exact Htl|].
        constructor; [|constructor]. simpl rest. split; [exact E|].
        rewrite spanDigits_String, E. reflexivity.
    + exists []. simpl. rewrite Nat.add_0_r. split; [reflexivity|constructor].
Qed.

Lemma substring_span s :
  substring 0 (String.length (fst (spanDigits s))) s = fst (spanDigits s).
Proof.
  induction s as [|c r IH]; [reflexivity|].
  rewrite spanDigits_String. destruct (isDigit c); [|reflexivity].
  cbn [fst String.length substring]. f_equal. exact IH.
Qed.

(** Every outcome keeps the sum of what was consumed and what is ahead. *)
Lemma iter_extent round :
  (forall t t', In t' (round t) ->
     (pos t' + String.length (rest t') = pos t + String.length (rest t))%nat) ->
  forall fuel t t', In t' (iter round fuel t) ->
    (pos t' + String.length (rest t') = pos t + String.length (rest t))%nat.
Proof.
  intros Hr. induction fuel as [|k IH]; intros t t' Hin; cbn [iter] in Hin.
  - destruct Hin as [<-|[]]. reflexivity.
  - apply in_app_or in Hin as [Hin|[<-|[]]]; [|reflexivity].
    apply in_flat_map in Hin as (t1 & H1 & H2).
    destruct (pos t <? pos t1)%nat; [|destruct H2].
    rewrite (IH _ _ H2). apply Hr. exact H1.
Qed.

Lemma run_extent r : forall t t',
  In t' (run r t) ->
  (pos t' + String.length (rest t') = pos t + String.length (rest t))%nat.
Proof.
  assert (Hstep : forall p t t', In t' (step1 p t) ->
    (pos t' + String.length (rest t') = pos t + String.length (rest t))%nat).
  { intros p t t'. unfold step1. destruct (rest t) as [|c s] eqn:E; [intros []|].
    destruct (p c); [|intros []]. intros [<-|[]]. cbn [pos rest String.length]. lia. }
  induction r as [| | c | | r IH | r IH | r IH | r1 IH1 r2 IH2 | r IH];
    intros t t' Hin; cbn [run] in Hin.
  - destruct (pos t =? 0)%nat; [destruct Hin as [<-|[]]; reflexivity|destruct Hin].
  - assert (t' = t) as ->; [|reflexivity].
    revert Hin. destruct (rest t); intros Hin; [|destruct Hin].
    destruct Hin as [<-|[]]. reflexivity.
  - eapply Hstep; eassumption.
  - eapply Hstep; eassumption.
  - apply in_app_or in Hin as [Hin|[<-|[]]]; [apply IH; exact Hin|reflexivity].
  - eapply iter_extent; eassumption.
  - apply in_flat_map in Hin as (t1 & H1 & H2).
    rewrite (iter_extent _ IH _ _ _ H2). apply IH. exact H1.
  - apply in_flat_map in Hin as (t1 & H1 & H2).
    rewrite (IH2 _ _ H2). apply IH1. exact H1.
  - apply in_map_iff in Hin as (t1 & <- & H1). cbn [close pos rest].
    apply IH. exact H1.
Qed.

Lemma run_Cat r1 r2 t : run (Cat r1 r2) t = flat_map (run r2) (run r1 t).
Proof. reflexivity. Qed.
Lemma run_Group r t : run (Group r) t = map (close t) (run r t).
Proof. reflexivity. Qed.
Lemma run_Star r t : run (Star r) t = iter (run r) (String.length (rest t)) t.
Proof. reflexivity. Qed.
Lemma run_Plus r t :
  run (Plus r) t = flat_map (iter (run r) (String.length (rest t))) (run r t).
Proof. reflexivity. Qed.
Lemma run_Quest r t : run (Quest r) t = (run r t ++ [t])%list.
Proof. reflexivity. Qed.
Lemma flat_map_cons' {A B} (f : A -> list B) x l :
  flat_map f (x :: l) = (f x ++ flat_map f l)%list.
Proof. reflexivity. Qed.

Lemma flat_map_nil' {A B} (f : A -> list B) : flat_map f [] = [].
Proof. reflexivity. Qed.

Lemma eol_fails_on_digits t0 tl :
  Forall (fun t => startsWithDigit (rest t) = true
                   /\ snd (spanDigits (rest t)) = snd (spanDigits (rest t0))) tl ->
  flat_map (run Eol) (map (close t0) tl) = [].
Proof.
  induction 1 as [|t tl [Ht _] _ IH]; [reflexivity|].
  change (flat_map (run Eol) (map (close t0) (t :: tl)))
    with (run Eol (close t0 t) ++ flat_map (run Eol) (map (close t0) tl))%list.
  rewrite IH, app_nil_r. cbn [run close rest].
  destruct (rest t); [discriminate Ht|reflexivity].
Qed.

Lemma run_minorPart t :
  run minorPart t =
    match snd (spanDigits (rest t)) with
    | EmptyString =>
        [{| caps := caps t ++ [fst (spanDigits (rest t))];
            pos := pos t + String.length (fst (spanDigits (rest t)));
            rest := EmptyString |}]
    | _ => []
    end.
Proof.
  destruct t as [cs n s]. unfold minorPart.
  rewrite run_Cat, run_Group, run_Star. cbn [rest caps pos].
  rewrite iter_digits by lia.
  destruct (digitSplits_shape s cs n) as (tl & -> & Htl).
  set (t0 := {| caps := cs; pos := n; rest := s |}).
  set (h := {| caps := cs; pos := n + String.length (fst (spanDigits s));
               rest := snd (spanDigits s) |}).
  rewrite map_cons, flat_map_cons'.
  rewrite (eol_fails_on_digits t0 tl Htl), app_nil_r.
  subst t0 h. cbn [run close rest caps pos].
  destruct (snd (spanDigits s)) eqn:E; [|reflexivity].
  unfold close. cbn [rest caps pos].
  replace (n + String.length (fst (spanDigits s)) - n)%nat
    with (String.length (fst (spanDigits s))) by lia.
  rewrite substring_span. reflexivity.
Qed.

Lemma run_dotPart t : run dotPart t = run minorPart (after "." t).
Proof.
  destruct t as [cs n s]. unfold dotPart, after.
  rewrite run_Cat, run_Quest. cbn [run rest caps pos]. unfold step1.
  cbn [rest caps pos].
  destruct s as [|c r].
  - cbn [app skip String.length]. rewrite flat_map_cons', flat_map_nil'.
    rewrite app_nil_r, Nat.sub_diag, Nat.add_0_r. reflexivity.
  - cbn [skip]. destruct (Ascii.eqb "." c) eqn:E.
    + apply Ascii.eqb_eq in E as <-.
      cbn [app]. rewrite !flat_map_cons', flat_map_nil'.
      rewrite (run_minorPart {| caps := cs; pos := n; rest := String "." r |}).
      cbn [rest]. rewrite spanDigits_String.
      change (isDigit ".") with false. cbn [snd]. rewrite !app_nil_r.
      do 2 f_equal. cbn [String.length]. lia.
    + cbn [app]. rewrite flat_map_cons', flat_map_nil'.
      rewrite app_nil_r, Nat.sub_diag, Nat.add_0_r. reflexivity.
Qed.

Lemma skip_no_digit c s :
  isDigit c = false -> startsWithDigit s = true -> skip c s = s.
Proof.
  destruct s as [|c' r]; [discriminate|]. cbn [startsWithDigit skip].
  intros Hc Hc'. destruct (Ascii.eqb_spec c c') as [->|]; [congruence|reflexivity].
Qed.

Lemma dot_fails_on_digits t0 tl r :
  Forall (fun t => startsWithDigit (rest t) = true
                   /\ snd (spanDigits (rest t)) = r) tl ->
  r <> "" ->
  flat_map (run dotPart) (map (close t0) tl) = [].
Proof.
  intros Htl Hr. induction Htl as [|t tl [Ht Hs] _ IH]; [reflexivity|].
  rewrite map_cons, flat_map_cons', IH, app_nil_r.
  rewrite run_dotPart, run_minorPart. unfold after, close. cbn [rest caps pos].
  rewrite (skip_no_digit "." (rest t) eq_refl Ht), Hs.
  destruct r; [congruence|reflexivity].
Qed.

Lemma run_majorPart cs n s :
  match fst (spanDigits s) with
  | EmptyString => run majorPart {| caps := cs; pos := n; rest := s |} = []
  | a =>
      exists tl,
        run majorPart {| caps := cs; pos := n; rest := s |} =
          (run dotPart {| caps := cs ++ [a]; pos := n + String.length a;
                          rest := snd (spanDigits s) |} ++ tl)%list
        /\ (snd (spanDigits s) <> "" -> tl = [])
  end.
Proof.
  unfold majorPart. rewrite run_Cat, run_Group, run_Plus.
  change (run Digit {| caps := cs; pos := n; rest := s |})
    with (step1 isDigit {| caps := cs; pos := n; rest := s |}).
  unfold step1. cbn [rest caps pos].
  destruct s as [|c r]; [reflexivity|].
  rewrite spanDigits_String. destruct (isDigit c) eqn:E; [|reflexivity].
  cbn [fst snd]. rewrite flat_map_cons', flat_map_nil', app_nil_r.
  rewrite iter_digits by (cbn [String.length]; lia).
  destruct (digitSplits_shape r cs (S n)) as (tl & -> & Htl).
  rewrite map_cons, flat_map_cons'.
  eexists. split.
  - f_equal. f_equal. unfold close. cbn [rest caps pos String.length].
    replace (S n + String.length (fst (spanDigits r)) - n)%nat
      with (S (String.length (fst (spanDigits r)))) by lia.
    cbn [substring]. rewrite substring_span. f_equal. lia.
  - intros Hr. eapply dot_fails_on_digits; [exact Htl|exact Hr].
Qed.

Lemma run_regex v :
  run api.regex (start 0 v) = run majorPart (after "v" (start 0 v)).
Proof.
  change api.regex with (Cat Bol (Cat (Quest (Lit "v")) majorPart)).
  rewrite run_Cat. change (run Bol (start 0 v)) with [start 0 v].
  rewrite flat_map_cons', flat_map_nil', app_nil_r, run_Cat, run_Quest.
  change (run (Lit "v") (start 0 v)) with (step1 (Ascii.eqb "v") (start 0 v)).
  unfold step1, after, start. cbn [rest caps pos].
  destruct v as [|c r].
  - reflexivity.
  - cbn [skip]. destruct (Ascii.eqb "v" c) eqn:E.
    + apply Ascii.eqb_eq in E as <-.
      cbn [app]. rewrite !flat_map_cons', flat_map_nil'.
      pose proof (run_majorPart [] 0 (String "v" r)) as H.
      rewrite spanDigits_String in H. change (isDigit "v") with false in H.
      cbn [fst] in H. rewrite H, !app_nil_r.
      do 2 f_equal. cbn [String.length]. lia.
    + cbn [app]. rewrite flat_map_cons', flat_map_nil', app_nil_r.
      do 2 f_equal. lia.
Qed.

Lemma scan_eq v :
  scan v =
    match fst (spanDigits (skip "v" v)) with
    | EmptyString => None
    | a =>
        match snd (spanDigits (skip "." (snd (spanDigits (skip "v" v))))) with
        | EmptyString =>
            Some (a, fst (spanDigits (skip "." (snd (spanDigits (skip "v" v))))))
        | _ => None
        end
    end.
Proof.
  unfold scan. destruct (spanDigits (skip "v" v)) as [a s2]. cbn [fst snd].
  destruct a; [reflexivity|]. destruct (spanDigits (skip "." s2)); reflexivity.
Qed.

(** The first outcome of the search on the version pattern is the one
    the left-to-right reading finds, and there is none where it fails. *)
Lemma regex_first v :
  match scan v with
  | Some (a, b) =>
      exists tl, run api.regex (start 0 v) =
                   {| caps := [a; b]; pos := String.length v; rest := "" |} :: tl
  | None => run api.regex (start 0 v) = []
  end.
Proof.
  pose proof (run_extent api.regex (start 0 v)) as Hext.
  rewrite run_regex in *. rewrite scan_eq.
  unfold after, start in *. cbn [rest caps pos] in *.
  set (s1 := skip "v" v) in *.
  set (p := (0 + (String.length v - String.length s1))%nat) in *.
  pose proof (run_majorPart [] p s1) as H.
  destruct (fst (spanDigits s1)) as [|c a] eqn:Ea; [exact H|].
  destruct H as (tl & H & Htl). rewrite H in *. clear H.
  rewrite run_dotPart, run_minorPart in *. unfold after in *.
  cbn [rest caps pos] in *.
  set (s3 := skip "." (snd (spanDigits s1))) in *.
  destruct (snd (spanDigits s3)) eqn:E4.
  - specialize (Hext _ (or_introl eq_refl)). cbn [rest caps pos String.length] in Hext.
    exists tl. cbn [app]. f_equal. f_equal. cbn [String.length]. lia.
  - rewrite Htl; [reflexivity|].
    intros Hr. subst s3. rewrite Hr in E4. discriminate E4.
Qed.

Lemma search_later s : forall n, search api.regex (S n) s = None.
Proof. induction s as [|c r IH]; intros n; [reflexivity|]. apply (IH (S n)). Qed.

Lemma search_regex v :
  search api.regex 0 v =
    match scan v with
    | Some (a, b) =>
        Some (start 0 v, {| caps := [a; b]; pos := String.length v; rest := "" |})
    | None => None
    end.
Proof.
  pose proof (regex_first v) as H.
  destruct (scan v) as [[a b]|].
  - destruct H as (tl & H). destruct v; cbn [search]; fold (start 0 "") in *;
      unfold start in *; rewrite H; reflexivity.
  - destruct v as [|c r]; cbn [search]; unfold start in H; rewrite H;
      [reflexivity|apply search_later].
Qed.

Lemma substring_all s : substring 0 (String.length s) s = s.
Proof. induction s as [|c r IH]; [reflexivity|]. cbn. f_equal. exact IH. Qed.

(** [FindAllStringSubmatch] on the version pattern: at most one match,
    the whole text, with the two groups the reading finds. *)
Lemma FindAllStringSubmatch_regex v :
  FindAllStringSubmatch api.regex v =
    match scan v with
    | Some (a, b) => [[v; a; b]]
    | None => []
    end.
Proof.
  unfold FindAllStringSubmatch. cbn [findAll]. rewrite search_regex.
  destruct (scan v) as [[a b]|] eqn:E; [|reflexivity].
  unfold start. cbn [rest caps pos]. rewrite Nat.sub_0_r, substring_all.
  destruct v as [|c r]; [discriminate E|].
  cbn [String.length Nat.ltb Nat.leb findAll].
  rewrite search_later. reflexivity.
Qed.

End regexp_facts.

(** ** api/version.go: parsing *)

Module api_facts.
Import strconv regexp syntax api regexp_facts strconv_facts.

Lemma NewVersion_scan v :
  NewVersion v =
    match scan v with
    | None => inl (New ("could not parse '" +:+ v +:+ "' as version"))
    | Some (a, b) =>
        match ParseUint a with
        | inl k => inl (Wrapf (NumError "ParseUint" a k) ("parsing Major '" +:+ a +:+ "'"))
        | inr major =>
            match b with
            | EmptyString => inr {| Major := major; Minor := 0 |}
            | _ =>
                match ParseUint b with
                | inl k => inl (Wrapf (NumError "ParseUint" b k)
                                      ("parsing Minor '" +:+ b +:+ "'"))
                | inr minor => inr {| Major := major; Minor := minor |}
                end
            end
        end
    end.
Proof.
  unfold NewVersion. rewrite FindAllStringSubmatch_regex.
  destruct (scan v) as [[a b]|]; reflexivity.
Qed.

Lemma digit_not_v c : isDigit c = true -> Ascii.eqb "v" c = false.
Proof.
  intros H. destruct (Ascii.eqb_spec "v" c) as [<-|]; [discriminate H|reflexivity].
Qed.

Lemma digit_not_dot c : isDigit c = true -> Ascii.eqb "." c = false.
Proof.
  intros H. destruct (Ascii.eqb_spec "." c) as [<-|]; [discriminate H|reflexivity].
Qed.

Lemma append_nil_r s : s +:+ "" = s.
Proof. induction s as [|c r IH]; [reflexivity|]. rewrite append_String, IH. reflexivity. Qed.

Lemma skip_shape c s :
  s = String c (skip c s) \/ skip c s = s.
Proof.
  destruct s as [|c' r]; [right; reflexivity|]. cbn [skip].
  destruct (Ascii.eqb_spec c c') as [<-|]; [left|right]; reflexivity.
Qed.

Lemma digits_stopped s :
  allDigits s = true -> startsWithDigit s = false -> s = "".
Proof.
  destruct s as [|c r]; [reflexivity|]. cbn [allDigits startsWithDigit].
  intros H1 H2. rewrite H2 in H1. discriminate H1.
Qed.

Lemma scan_shaped s a b :
  scan s = Some (a, b) -> exists v minor, shaped s v a minor /\ b = minorDigits minor.
Proof.
  rewrite scan_eq.
  pose proof (spanDigits_app (skip "v" s)) as H1.
  pose proof (spanDigits_allDigits (skip "v" s)) as D1.
  pose proof (spanDigits_stop (skip "v" s)) as N1.
  destruct (spanDigits (skip "v" s)) as [a1 r1]. cbn [fst snd] in *.
  pose proof (spanDigits_app (skip "." r1)) as H3.
  pose proof (spanDigits_allDigits (skip "." r1)) as D3.
  destruct (spanDigits (skip "." r1)) as [b3 r3]. cbn [fst snd] in *.
  destruct a1 as [|c a']; [intros H; discriminate H|].
  destruct r3; [|intros H; discriminate H].
  intros H. injection H as <- <-. rewrite append_nil_r in H3.
  assert (Hv : exists v : bool, s = (if v then "v" else "") +:+ skip "v" s).
  { destruct (skip_shape "v" s) as [E|E]; [exists true; exact E|exists false].
    rewrite E. reflexivity. }
  destruct Hv as (v & Hv). exists v.
  destruct (skip_shape "." r1) as [E|E].
  - exists (Some b3). split; [|reflexivity].
    split; [|split; [discriminate|split; [exact D1|exact D3]]].
    rewrite Hv at 1. rewrite H1, E, H3. reflexivity.
  - rewrite E in H3. subst r1.
    rewrite (digits_stopped b3 D3 N1) in *.
    exists None. split; [|reflexivity].
    split; [|split; [discriminate|split; [exact D1|exact I]]].
    rewrite Hv at 1. rewrite H1. reflexivity.
Qed.

(** The left-to-right reading finds the two groups exactly on the texts
    of the shape the spec gives. *)
Lemma scan_spec s a b :
  scan s = Some (a, b) <->
  exists v minor, shaped s v a minor /\ b = minorDigits minor.
Proof.
  split; [apply scan_shaped|]. rewrite scan_eq.
  - intros (v & minor & (Hs & Ha & Da & Dm) & ->).
    destruct a as [|c a']; [congruence|]. clear Ha.
    pose proof Da as Dc. cbn [allDigits] in Dc. apply andb_prop in Dc as [Dc _].
    set (tail := match minor with Some m => "." +:+ m | None => "" end) in *.
    assert (Ht : startsWithDigit tail = false) by (subst tail; destruct minor; reflexivity).
    assert (H1 : skip "v" s = String c a' +:+ tail).
    { subst s. destruct v; [reflexivity|].
      rewrite append_empty_l, append_String. cbn [skip].
      rewrite (digit_not_v c Dc). reflexivity. }
    rewrite H1, (spanDigits_unique _ _ Da Ht). cbn [fst snd].
    assert (H3 : skip "." tail = minorDigits minor)
      by (subst tail; destruct minor; reflexivity).
    assert (D3 : allDigits (minorDigits minor) = true)
      by (destruct minor; [exact Dm|reflexivity]).
    pose proof (spanDigits_unique _ "" D3 eq_refl) as S3.
    rewrite append_nil_r in S3. rewrite H3, S3. reflexivity.
Qed.

Lemma NewVersion_denotes s ver : NewVersion s = inr ver <-> denotes s ver.
Proof.
  rewrite NewVersion_scan. split.
  - destruct (scan s) as [[a b]|] eqn:E; [|intros H; discriminate H].
    apply scan_spec in E as (v & minor & Hsh & ->).
    destruct (ParseUint a) as [k|major] eqn:Pa; [intros H; discriminate H|].
    apply ParseUint_inr in Pa as (_ & _ & Va & Ra).
    destruct (minorDigits minor) as [|c m] eqn:Em.
    + intros [= <-]. exists v, a, minor. rewrite Em, Va.
      split; [exact Hsh|]. split; [exact Ra|].
      split; [unfold value, maxUint64; cbn; lia|reflexivity].
    + destruct (ParseUint (String c m)) as [k|mi] eqn:Pb; [intros H; discriminate H|].
      apply ParseUint_inr in Pb as (_ & _ & Vb & Rb).
      intros [= <-]. exists v, a, minor. rewrite Em, Va, Vb.
      split; [exact Hsh|]. split; [exact Ra|]. split; [exact Rb|reflexivity].
  - intros (v & major & minor & Hsh & R1 & R2 & ->).
    assert (E : scan s = Some (major, minorDigits minor))
      by (apply scan_spec; exists v, minor; split; [exact Hsh|reflexivity]).
    rewrite E. destruct Hsh as (_ & Hne & Da & Dm).
    rewrite (proj2 (ParseUint_inr major (value major))) by auto.
    destruct (minorDigits minor) as [|c m] eqn:Em; [reflexivity|].
    rewrite (proj2 (ParseUint_inr (String c m) (value (String c m)))); [reflexivity|].
    repeat split; [discriminate| |exact R2].
    destruct minor as [m'|]; [|discriminate Em]. cbn in Em. subst m'. exact Dm.
Qed.

(** A text that has not the shape of a version matches nothing. *)
Lemma NewVersion_no_match s :
  ~ matchesPattern s ->
  NewVersion s = inl (New ("could not parse '" +:+ s +:+ "' as version")).
Proof.
  intros Hn. rewrite NewVersion_scan.
  destruct (scan s) as [[a b]|] eqn:E; [|reflexivity].
  contradiction Hn. apply scan_spec in E as (v & minor & Hsh & _).
  exists v, a, minor. exact Hsh.
Qed.

End api_facts.

Module claims_api.
Import strconv syntax api api_facts.

Lemma compareField_None a b : compareField a b = None <-> a = b.
Proof.
  unfold compareField. destruct (N.eqb_spec a b) as [E|E]; cbn [negb].
  - split; [intros _; exact E|reflexivity].
  - destruct (N.ltb_spec a b) as [L|L]; [split; [intros X; discriminate X|contradiction]|].
    destruct (N.ltb_spec b a) as [L'|L']; [split; [intros X; discriminate X|contradiction]|].
    lia.
Qed.

Lemma compareField_Some a b r : compareField a b = Some r -> r <> 0%Z.
Proof.
  unfold compareField. destruct (negb (a =? b)); [|intros X; discriminate X].
  destruct (a <? b); [intros [= <-]; discriminate|].
  destruct (b <? a); [intros [= <-]; discriminate|intros X; discriminate X].
Qed.

Lemma Equal_iff v o : Equal v o = true <-> v = o.
Proof.
  unfold Equal, Compare. rewrite Z.eqb_eq.
  assert (Hrefl : forall x, compareField x x = None)
    by (intros x; apply compareField_None; reflexivity).
  destruct (compareField (Major v) (Major o)) as [r|] eqn:E1.
  - pose proof (compareField_Some _ _ _ E1) as Hr. split; [contradiction|].
    intros ->. rewrite Hrefl in E1. discriminate E1.
  - apply compareField_None in E1.
    destruct (compareField (Minor v) (Minor o)) as [r|] eqn:E2.
    + pose proof (compareField_Some _ _ _ E2) as Hr. split; [contradiction|].
      intros ->. rewrite Hrefl in E2. discriminate E2.
    + apply compareField_None in E2. split; [intros _|reflexivity].
      destruct v, o. cbn [Major Minor] in *. congruence.
Qed.

(** C7: [IsSupersetOf supported required] is true exactly when either
    the supported major is 0 and the two versions are equal, or the
    supported major is not 0, the majors are equal and the supported
    minor is at least the required one; with the five instances the
    spec lists. *)
Theorem C7_IsSupersetOf_iff :
  (forall supported required : Version,
     IsSupersetOf supported required = true <->
     (Major supported = 0 /\ supported = required)
     \/ (Major supported <> 0 /\ Major supported = Major required
         /\ Minor required <= Minor supported))
  /\ IsSupersetOf {| Major := 0; Minor := 0 |} {| Major := 0; Minor := 0 |} = true
  /\ IsSupersetOf {| Major := 0; Minor := 1 |} {| Major := 0; Minor := 2 |} = false
  /\ IsSupersetOf {| Major := 1; Minor := 5 |} {| Major := 1; Minor := 3 |} = true
  /\ IsSupersetOf {| Major := 1; Minor := 3 |} {| Major := 1; Minor := 5 |} = false
  /\ IsSupersetOf {| Major := 2; Minor := 0 |} {| Major := 1; Minor := 0 |} = false.
Proof.
  split; [|repeat split].
  intros supported required. unfold IsSupersetOf.
  destruct (N.eqb_spec (Major supported) 0) as [H0|H0].
  - rewrite Equal_iff. split.
    + intros E. left. split; [exact H0|exact E].
    + intros [[_ E]|[Hn _]]; [exact E|contradiction].
  - rewrite andb_true_iff, N.eqb_eq, N.leb_le. split.
    + intros [E L]. right. split; [exact H0|]. split; [exact E|exact L].
    + intros [[Hz _]|(_ & E & L)]; [contradiction|split; [exact E|exact L]].
Qed.

(** C8, as amended: [NewVersion] succeeds exactly on the texts made of
    an optional leading [v], digits, and an optional minor segment of a
    dot and digits, whose major and minor numbers both fit in 64 bits;
    the result holds these two numbers, a missing or empty minor giving
    0; a text of another shape fails with the error "could not parse".
    The seven instances of the spec parse, or fail, as it says. *)
Theorem C8_NewVersion_denotes :
  (forall s ver, NewVersion s = inr ver <-> denotes s ver)
  /\ (forall s, ~ matchesPattern s ->
               NewVersion s = inl (New ("could not parse '" +:+ s +:+ "' as version")))
  /\ NewVersion "v1" = inr {| Major := 1; Minor := 0 |}
  /\ NewVersion "1" = inr {| Major := 1; Minor := 0 |}
  /\ NewVersion "1.2" = inr {| Major := 1; Minor := 2 |}
  /\ NewVersion "v1.2" = inr {| Major := 1; Minor := 2 |}
  /\ NewVersion "1.2.3" = inl (New "could not parse '1.2.3' as version")
  /\ NewVersion "abc" = inl (New "could not parse 'abc' as version")
  /\ NewVersion "" = inl (New "could not parse '' as version").
Proof.
  split; [exact NewVersion_denotes|]. split; [exact NewVersion_no_match|].
  repeat split; vm_compute; reflexivity.
Qed.

(** C8, as stated, fails: a run of twenty digits has the shape of a
    version and does not parse, for its number leaves [uint64]. *)
Lemma twenty_digits_do_not_parse :
  matchesPattern "18446744073709551616"
  /\ NewVersion "18446744073709551616"
     = inl (Wrapf (NumError "ParseUint" "18446744073709551616" ErrRange)
                  "parsing Major '18446744073709551616'")
  /\ ~ ((exists ver, NewVersion "18446744073709551616" = inr ver)
        <-> matchesPattern "18446744073709551616").
Proof.
  assert (Hm : matchesPattern "18446744073709551616").
  { exists false, "18446744073709551616", None.
    split; [reflexivity|]. split; [discriminate|]. split; [reflexivity|exact I]. }
  assert (Hn : NewVersion "18446744073709551616"
     = inl (Wrapf (NumError "ParseUint" "18446744073709551616" ErrRange)
                  "parsing Major '18446744073709551616'"))
    by (vm_compute; reflexivity).
  split; [exact Hm|]. split; [exact Hn|].
  intros [_ H]. destruct (H Hm) as [ver Hv]. rewrite Hn in Hv. discriminate Hv.
Qed.

(** C10: where the text does not parse, [UnmarshalText] returns an
    error and leaves the receiver as it was; where it parses, the
    receiver holds the major and minor of the parsed version and no
    error is returned. *)
Theorem C10_UnmarshalText (v : Version) (text : string) :
  match NewVersion text with
  | inl _ =>
      fst (UnmarshalText v text) = v
      /\ exists err, snd (UnmarshalText v text) = Some err
  | inr parsed =>
      Major (fst (UnmarshalText v text)) = Major parsed
      /\ Minor (fst (UnmarshalText v text)) = Minor parsed
      /\ snd (UnmarshalText v text) = None
  end.
Proof.
  unfold UnmarshalText. destruct (NewVersion text) as [e|parsed]; cbn.
  - split; [reflexivity|eexists; reflexivity].
  - repeat split.
Qed.

End claims_api.

(** ** cmd/lifecycle/builder.go *)

Module builder_facts.
Import lifecycle exec main observe.

(** The delegate launches at most one child, and only with the
    configured identity converted to [uint32]. *)
Lemma buildAsSubProcess_runs W a :
  (exists err, Executable W = inl err /\ buildAsSubProcess W a = ([], Err err))
  \/ (exists exe c,
        Executable W = inr exe
        /\ c = Command (Join W (Dir W exe) "builder")
                 [ "-" +:+ FlagNameGroupPath W; groupPath a;
                   "-" +:+ FlagNamePlanPath W; planPath a ]
                 {| Uid := uint32 (uid a); Gid := uint32 (gid a) |}
        /\ trace (buildAsSubProcess W a) = [EvRun c]
        /\ outcome (buildAsSubProcess W a)
           = match Run W c with Some e => Err e | None => Ok tt end).
Proof.
  unfold buildAsSubProcess. destruct (Executable W) as [err|exe].
  - left. exists err. split; reflexivity.
  - right. eexists exe, _. repeat split.
Qed.

(** With no stack plugin, [Exec] is the delegate and nothing else. *)
Lemma Exec_empty_stack W b group stackGroup plan :
  readData W b = inr (group, stackGroup, plan) ->
  Group stackGroup = [] ->
  Exec W b = buildAsSubProcess W (ba b).
Proof. intros H E. unfold Exec. rewrite H, E. reflexivity. Qed.

Lemma Exec_stack W b group stackGroup plan :
  readData W b = inr (group, stackGroup, plan) ->
  Group stackGroup <> [] ->
  Exec W b = buildAll W (ba b) group stackGroup plan.
Proof.
  intros H E. unfold Exec. rewrite H.
  destruct (Group stackGroup); [congruence|reflexivity].
Qed.

Lemma buildAll_ends W a group stackGroup plan :
  buildAllEnds W a group stackGroup (buildAll W a group stackGroup plan).
Proof.
  unfold buildAll.
  destruct (verifyBuildpackApis W (Group group)) as [e|] eqn:V1.
  { apply ends_at_verification. left. exact V1. }
  destruct (verifyBuildpackApis W (Group stackGroup)) as [e|] eqn:V2.
  { apply ends_at_verification. right. split; [exact V1|exact V2]. }
  assert (Hver : apisVerified W group stackGroup) by (split; assumption).
  unfold createBuilder, stackBuild, call, orReturn.
  destruct (NewKanikoSnapshotter W "/") as [e|snap] eqn:NS.
  { apply ends_at_snapshotter; [exact Hver|exact NS]. }
  destruct (api.MustParse (platformAPI a)) as [e|v] eqn:MP.
  { apply ends_at_platformAPI; [exact Hver|exact MP]. }
  cbn [mbind M_bind mret M_ret check app].
  destruct (StackBuild W _) as [e|md] eqn:SB.
  { eapply ends_at_stackBuild; [exact Hver|exact SB]. }
  cbn [mbind M_bind mret M_ret check app].
  destruct (Group group) as [|bp more] eqn:G.
  - eapply ends_after_stackBuild; [exact Hver|exact SB|exact G].
  - cbn [length Nat.ltb Nat.leb].
    match goal with
    | |- buildAllEnds _ _ _ _ ?m =>
        replace m
          with (([EvNewKanikoSnapshotter "/";
                  EvStackBuild {| AppDir := appDir a; LayersDir := layersDir a;
                                  PlatformDir := platformDir a;
                                  BuildpacksDir := buildpacksDir a;
                                  PlatformAPI := v; Env := NewBuildEnv W (Environ W);
                                  Group_ := group; StackGroup := stackGroup;
                                  Plan := plan; Snapshotter_ := snap |}]
                  ++ trace (buildAsSubProcess W a))%list,
                outcome (buildAsSubProcess W a))
          by (destruct (buildAsSubProcess W a); reflexivity)
    end.
    eapply ends_with_delegate; [exact Hver|exact SB|rewrite G; discriminate].
Qed.

(** In [buildAll] nothing happens before the API versions of both groups
    are verified, and a group that fails ends the run at once. *)
Lemma buildAll_verifies_first W a group stackGroup plan :
  (trace (buildAll W a group stackGroup plan) <> [] -> apisVerified W group stackGroup)
  /\ (~ apisVerified W group stackGroup ->
      exists e, buildAll W a group stackGroup plan = ([], Err e)).
Proof.
  destruct (buildAll_ends W a group stackGroup plan)
    as [e He|e Hg _|e Hg _|bld e Hg _|bld md Hg _ _|bld md Hg _ _];
    (split; [intros Ht|intros Hn]); try exact Hg; try contradiction.
  exists e. reflexivity.
Qed.

End builder_facts.

Module claims_builder.
Import lifecycle exec main observe builder_facts.

(** C3: where the stack group that was read is empty and the process is
    privileged, [Privileges] returns the error "refusing to run as
    root"; an invocation ends with that error and has executed no
    plugin, indeed has caused no event at all. *)
Theorem C3_refuses_root W b group stackGroup plan :
  readData W b = inr (group, stackGroup, plan) ->
  Group stackGroup = [] ->
  IsPrivileged W = true ->
  Privileges W b = Some (FailErr (New "refusing to run as root") ["build"])
  /\ Invoke W 0 b = ([], Err (FailErr (New "refusing to run as root") ["build"]))
  /\ forall nargs, filter isPluginExecution (trace (Invoke W nargs b)) = []
                   /\ trace (Invoke W nargs b) = [].
Proof.
  intros Hread Hstack Hroot.
  assert (HP : Privileges W b = Some (FailErr (New "refusing to run as root") ["build"])).
  { unfold Privileges. rewrite Hread, Hstack, Hroot. reflexivity. }
  split; [exact HP|]. unfold Invoke. rewrite HP. split; [reflexivity|].
  intros [|n]; split; reflexivity.
Qed.

(** C4: with a stack group that is not empty, every execution of app
    plugins in the run of [Exec], the delegate's child included, comes
    after a stack build that returned without error; and where the stack
    build returns an error, [Exec] ends there with that error,
    classified, the stack build is its last event and no app plugin was
    executed. *)
Theorem C4_stack_before_app W b group stackGroup plan :
  readData W b = inr (group, stackGroup, plan) ->
  Group stackGroup <> [] ->
  (forall (i : nat) (ev : Event),
     trace (Exec W b) !! i = Some ev -> isAppExecution ev = true ->
     exists (j : nat) builder md,
       (j < i)%nat /\ trace (Exec W b) !! j = Some (EvStackBuild builder)
       /\ StackBuild W builder = inr md)
  /\ (forall builder err,
        In (EvStackBuild builder) (trace (Exec W b)) ->
        StackBuild W builder = inl err ->
        outcome (Exec W b) = Err (classify err "stack-build")
        /\ last (trace (Exec W b)) = Some (EvStackBuild builder)
        /\ filter isAppExecution (trace (Exec W b)) = []).
Proof.
  intros Hread Hne. rewrite (Exec_stack _ _ _ _ _ Hread Hne).
  destruct (buildAll_ends W (ba b) group stackGroup plan)
    as [e _|e _ _|e _ _|bld e _ Hsb|bld md _ Hsb _|bld md _ Hsb _];
    cbn [trace outcome fst snd].
  - split; [intros i ev H; destruct i; discriminate H|intros ? ? []].
  - split.
    + intros [|[|i]] ev H Happ; simplify_eq/=.
    + intros ? ? [H|[]]. discriminate H.
  - split.
    + intros [|[|i]] ev H Happ; simplify_eq/=.
    + intros ? ? [H|[]]. discriminate H.
  - split.
    + intros [|[|[|i]]] ev H Happ; simplify_eq/=.
    + intros bld' err [H|[H|[]]] Hf; [discriminate H|].
      injection H as <-. rewrite Hsb in Hf. injection Hf as <-.
      repeat split.
  - split.
    + intros [|[|[|i]]] ev H Happ; simplify_eq/=.
    + intros bld' err [H|[H|[]]] Hf; [discriminate H|].
      injection H as <-. rewrite Hsb in Hf. discriminate Hf.
  - destruct (buildAsSubProcess_runs W (ba b))
      as [(err & _ & ->)|(exe & c & _ & _ & -> & _)]; cbn [trace fst app].
    + split.
      * intros [|[|[|i]]] ev H Happ; simplify_eq/=.
      * intros bld' err' [H|[H|[]]] Hf; [discriminate H|].
        injection H as <-. rewrite Hsb in Hf. discriminate Hf.
    + split.
      * intros [|[|[|[|i]]]] ev H Happ; simplify_eq/=.
        exists 1%nat, bld, md. repeat split; [lia|exact Hsb].
      * intros bld' err' [H|[H|[H|[]]]] Hf; try discriminate H.
        injection H as <-. rewrite Hsb in Hf. discriminate Hf.
Qed.

Lemma uint32_id x : inUint32 x -> uint32 x = x.
Proof. unfold inUint32, uint32. intros H. apply Z.mod_small. exact H. Qed.

(** C5, as amended: with both groups non-empty and a stack build that
    returned without error, [Exec] runs the delegate once, after the
    stack build, and ends as the delegate ends; the child the delegate
    launches, one whenever it can locate its own executable, carries
    the configured uid and gid converted to [uint32], which are the
    configured numbers whenever these lie in [0, 2^32); and no event of
    the run changes the identity of the parent. *)
Theorem C5_delegates_once W b group stackGroup plan builder md :
  readData W b = inr (group, stackGroup, plan) ->
  Group stackGroup <> [] ->
  Group group <> [] ->
  In (EvStackBuild builder) (trace (Exec W b)) ->
  StackBuild W builder = inr md ->
  Exec W b = (([EvNewKanikoSnapshotter "/"; EvStackBuild builder]
               ++ trace (buildAsSubProcess W (ba b)))%list,
              outcome (buildAsSubProcess W (ba b)))
  /\ (forall exe, Executable W = inr exe ->
        exists c,
          trace (Exec W b) = [EvNewKanikoSnapshotter "/"; EvStackBuild builder; EvRun c]
          /\ SysProcAttr c = {| Uid := uint32 (uid (ba b)); Gid := uint32 (gid (ba b)) |}
          /\ (inUint32 (uid (ba b)) -> Uid (SysProcAttr c) = uid (ba b))
          /\ (inUint32 (gid (ba b)) -> Gid (SysProcAttr c) = gid (ba b)))
  /\ filter isPrivilegeDrop (trace (Exec W b)) = [].
Proof.
  intros Hread Hs Hg Hin Hsb. rewrite (Exec_stack _ _ _ _ _ Hread Hs) in *.
  destruct (buildAll_ends W (ba b) group stackGroup plan)
    as [e _|e _ _|e _ _|bld e _ Hsb'|bld md' _ Hsb' Hg'|bld md' _ Hsb' _];
    cbn [trace outcome fst snd] in *.
  - destruct Hin.
  - destruct Hin as [H|[]]. discriminate H.
  - destruct Hin as [H|[]]. discriminate H.
  - destruct Hin as [H|[H|[]]]; [discriminate H|]. injection H as ->.
    rewrite Hsb in Hsb'. discriminate Hsb'.
  - contradiction.
  - assert (bld = builder) as ->.
    { destruct (buildAsSubProcess_runs W (ba b))
        as [(err & _ & R)|(exe & c & _ & _ & R & _)]; rewrite R in Hin;
        cbn [trace fst app] in Hin.
      - destruct Hin as [H|[H|[]]]; [discriminate H|]. injection H as ->. reflexivity.
      - destruct Hin as [H|[H|[H|[]]]]; try discriminate H.
        injection H as ->. reflexivity. }
    split; [reflexivity|].
    destruct (buildAsSubProcess_runs W (ba b))
      as [(err & X & R)|(exe & c & X & -> & R & _)]; rewrite R; cbn [trace fst app].
    + split; [intros exe H; rewrite X in H; discriminate H|reflexivity].
    + split; [|reflexivity]. intros _ _. eexists. split; [reflexivity|].
      cbn [SysProcAttr Command Uid Gid]. split; [reflexivity|].
      split; apply uint32_id.
Qed.



Lemma ReadGroup_at W path :
  (if Stat W path then ReadGroup W path else inr emptyGroup)
  = match files W !! path with
    | None => inr emptyGroup
    | Some (inl e) => inl e
    | Some (inr doc) => decodeGroup W doc
    end.
Proof.
  unfold Stat, ReadGroup, openFile. destruct (files W !! path) as [r|] eqn:E.
  - rewrite bool_decide_eq_true_2 by (exists r; reflexivity). destruct r; reflexivity.
  - rewrite bool_decide_eq_false_2; [reflexivity|]. intros [x Hx]. discriminate Hx.
Qed.

Lemma group_read W path g :
  (if Stat W path then ReadGroup W path else inr emptyGroup) = inr g
  <-> groupAt W path g.
Proof.
  rewrite ReadGroup_at. unfold groupAt.
  destruct (files W !! path) as [[e|doc]|]; split.
  - intros H. discriminate H.
  - intros [[H _]|(doc' & H & _)]; discriminate H.
  - intros H. right. exists doc. split; [reflexivity|exact H].
  - intros [[H _]|(doc' & [= <-] & H)]; [discriminate H|exact H].
  - intros [= <-]. left. split; reflexivity.
  - intros [[_ ->]|(doc' & H & _)]; [reflexivity|discriminate H].
Qed.

Lemma group_malformed W path :
  malformedGroupAt W path ->
  exists e, (if Stat W path then ReadGroup W path else inr emptyGroup) = inl e.
Proof.
  rewrite ReadGroup_at. intros [(e & Hf)|(doc & e & Hf & Hd)]; rewrite Hf.
  - exists e. reflexivity.
  - exists e. exact Hd.
Qed.

Lemma plan_read W path plan : DecodeFile W path = inr plan <-> planAt W path plan.
Proof.
  unfold DecodeFile, openFile, planAt.
  destruct (files W !! path) as [[e|doc]|]; split.
  - intros H. discriminate H.
  - intros (doc' & H & _). discriminate H.
  - intros H. exists doc. split; [reflexivity|exact H].
  - intros (doc' & [= <-] & H). exact H.
  - intros H. discriminate H.
  - intros (doc' & H & _). discriminate H.
Qed.

Lemma plan_missing W path : noPlanAt W path -> exists e, DecodeFile W path = inl e.
Proof.
  unfold DecodeFile, openFile.
  intros [Hf|[(e & Hf)|(doc & e & Hf & Hd)]]; rewrite Hf.
  - eexists. reflexivity.
  - exists e. reflexivity.
  - exists e. exact Hd.
Qed.

(** C9: [readData] succeeds exactly where at each group path there is
    no file, giving the empty group, or a file that decodes, giving its
    group, and at the plan path a file that decodes; a group file that
    is present and cannot be opened or decoded makes it fail, and so
    does, always, a plan file that is missing or cannot be opened or
    decoded. *)
Theorem C9_readData W b :
  (forall group stackGroup plan,
     readData W b = inr (group, stackGroup, plan) <->
     groupAt W (groupPath (ba b)) group
     /\ groupAt W (stackGroupPath b) stackGroup
     /\ planAt W (planPath (ba b)) plan)
  /\ (malformedGroupAt W (groupPath (ba b)) \/ malformedGroupAt W (stackGroupPath b) ->
      exists err, readData W b = inl err)
  /\ (noPlanAt W (planPath (ba b)) -> exists err, readData W b = inl err).
Proof.
  split; [|split].
  - intros group stackGroup plan.
    rewrite <- group_read, <- group_read, <- plan_read. unfold readData.
    destruct (if Stat W (groupPath (ba b)) then _ else _) as [e1|g1].
    { split; [intros H; discriminate H|intros (H & _); discriminate H]. }
    destruct (if Stat W (stackGroupPath b) then _ else _) as [e2|g2].
    { split; [intros H; discriminate H|intros (_ & H & _); discriminate H]. }
    destruct (DecodeFile W (planPath (ba b))) as [e3|p3].
    { split; [intros H; discriminate H|intros (_ & _ & H); discriminate H]. }
    split; [intros [= <- <- <-]; repeat split|intros ([= <-] & [= <-] & [= <-]); reflexivity].
  - unfold readData. intros [H|H]; apply group_malformed in H as (e & He).
    + rewrite He. eexists. reflexivity.
    + destruct (if Stat W (groupPath (ba b)) then _ else _); [eexists; reflexivity|].
      rewrite He. eexists. reflexivity.
  - unfold readData. intros H. apply plan_missing in H as (e & He).
    destruct (if Stat W (groupPath (ba b)) then _ else _); [eexists; reflexivity|].
    destruct (if Stat W (stackGroupPath b) then _ else _); [eexists; reflexivity|].
    rewrite He. eexists. reflexivity.
Qed.

End claims_builder.

(** ** The builder run in the example worlds *)

Module runs.
Import lifecycle exec main observe examples claims_builder.

(** C1 at a failing input: with no stack group and an app plugin of an
    incompatible API version, [Exec] launches the child and reports
    success, though [verifyBuildpackApis] rejects the group with the
    invalid-arguments code, as [buildAll] does for the same group once a
    stack group is there. *)
Theorem C1_unverified_without_stack :
  readData oldApp (command 1000 1000) = inr (oldGroup, emptyGroup, thePlan)
  /\ verifyBuildpackApis oldApp (Group oldGroup) = Some incompatible
  /\ Exec oldApp (command 1000 1000) = ([EvRun (child 1000 1000)], Ok tt)
  /\ buildAll oldApp (args 1000 1000) oldGroup stackGroup thePlan
     = ([], Err incompatible).
Proof. repeat split; vm_compute; reflexivity. Qed.

(** C2 at a failing input: with no stack group and no privilege,
    [Exec] launches the child and does nothing in its own process,
    while [build], which [Exec] never calls, is what drops to the
    configured identity, loads its environment, builds and writes the
    metadata. *)
Theorem C2_delegates_without_stack :
  readData appOnly (command 1000 1000) = inr (appGroup, emptyGroup, thePlan)
  /\ IsPrivileged appOnly = false
  /\ Exec appOnly (command 1000 1000) = ([EvRun (child 1000 1000)], Ok tt)
  /\ build appOnly (args 1000 1000) (builderOf appOnly appGroup emptyGroup)
     = ([EvRunAs 1000 1000;
         EvSetEnvironmentForUser 1000;
         EvBuild (builderOf appOnly appGroup emptyGroup);
         EvWriteTOML "/layers/config/metadata.toml" metadata], Ok tt).
Proof. repeat split; vm_compute; reflexivity. Qed.

(** [C3_refuses_root] on a privileged invocation without stack plugins. *)
Lemma refuses_root_example :
  Invoke appOnlyAsRoot 0 (command 1000 1000)
  = ([], Err (FailErr (New "refusing to run as root") ["build"])).
Proof.
  refine (proj1 (proj2 (C3_refuses_root appOnlyAsRoot (command 1000 1000)
                          appGroup emptyGroup thePlan _ _ _)));
    vm_compute; reflexivity.
Defined.

(** [C4_stack_before_app] on a two-stage build whose stack build a plugin
    fails. *)
Lemma stack_failure_example :
  outcome (Exec twoStageFailing (command 1000 1000))
  = Err (FailErrCode (New "exit status 1") CodeFailedBuildWithErrors ["stack-build"])
  /\ last (trace (Exec twoStageFailing (command 1000 1000)))
     = Some (EvStackBuild (builderOf twoStageFailing appGroup stackGroup))
  /\ filter isAppExecution (trace (Exec twoStageFailing (command 1000 1000))) = [].
Proof.
  refine (proj2 (C4_stack_before_app twoStageFailing (command 1000 1000)
                   appGroup stackGroup thePlan _ _)
            (builderOf twoStageFailing appGroup stackGroup)
            pluginFailure _ _).
  - vm_compute. reflexivity.
  - discriminate.
  - vm_compute. right. left. reflexivity.
  - reflexivity.
Defined.

(** [C5_delegates_once] on a two-stage build that goes well, with the
    uid and gid 1000. *)
Lemma delegates_once_example :
  Exec twoStage (command 1000 1000)
  = ([EvNewKanikoSnapshotter "/";
      EvStackBuild (builderOf twoStage appGroup stackGroup);
      EvRun (child 1000 1000)], Ok tt).
Proof.
  refine (proj1 (C5_delegates_once twoStage (command 1000 1000)
                   appGroup stackGroup thePlan
                   (builderOf twoStage appGroup stackGroup) metadata
                   _ _ _ _ _)).
  - vm_compute. reflexivity.
  - discriminate.
  - discriminate.
  - vm_compute. right. left. reflexivity.
  - reflexivity.
Defined.

(** C5, as stated, fails: configured with the uid 2^32 and the gid -1,
    the child of a two-stage build that went well runs with the uid 0
    and the gid 2^32 - 1. *)
Lemma uid_wraps_around :
  readData twoStage (command 4294967296 (-1))
    = inr (appGroup, stackGroup, thePlan)
  /\ Exec twoStage (command 4294967296 (-1))
     = ([EvNewKanikoSnapshotter "/";
         EvStackBuild (builderOf twoStage appGroup stackGroup);
         EvRun (child 0 4294967295)], Ok tt)
  /\ Uid (SysProcAttr (child 0 4294967295)) <> uid (ba (command 4294967296 (-1)))
  /\ Gid (SysProcAttr (child 0 4294967295)) <> gid (ba (command 4294967296 (-1))).
Proof.
  split; [vm_compute; reflexivity|]. split; [vm_compute; reflexivity|].
  split; discriminate.
Qed.



(** [C9_readData] where only the plan file is there, and where no file
    is. *)
Lemma readData_example :
  readData planOnly (command 1000 1000) = inr (emptyGroup, emptyGroup, thePlan)
  /\ exists err, readData (world ∅ false (inr metadata) (inr metadata)) (command 1000 1000)
                 = inl err.
Proof.
  split.
  - refine (proj2 (proj1 (C9_readData planOnly (command 1000 1000))
                     emptyGroup emptyGroup thePlan) _).
    split; [left; split; [vm_compute; reflexivity|reflexivity]|].
    split; [left; split; [vm_compute; reflexivity|reflexivity]|].
    exists "plan". split; vm_compute; reflexivity.
  - refine (proj2 (proj2 (C9_readData (world ∅ false (inr metadata) (inr metadata))
                            (command 1000 1000))) _).
    left. vm_compute. reflexivity.
Defined.

End runs.

(** * Further properties *)

(** ** api/version.go *)

Module version_facts.
Import strconv syntax api further strconv_facts regexp_facts api_facts.

Lemma compareField_cases a b :
  (a < b /\ compareField a b = Some (-1)%Z)
  \/ (a = b /\ compareField a b = None)
  \/ (b < a /\ compareField a b = Some 1%Z).
Proof.
  unfold compareField. destruct (N.eqb_spec a b) as [E|E]; cbn [negb].
  - right. left. split; [exact E|reflexivity].
  - destruct (N.ltb_spec a b) as [L|L]; [left; split; [exact L|reflexivity]|].
    destruct (N.ltb_spec b a) as [L'|L']; [|lia].
    right. right. split; [exact L'|reflexivity].
Qed.

Lemma Version_eq v o : Major v = Major o -> Minor v = Minor o -> v = o.
Proof. destruct v, o. cbn. intros -> ->. reflexivity. Qed.

(** X1: [Compare] is the lexicographic order on (major, minor): it
    answers -1, 0 or 1, -1 exactly where the receiver comes first, 1
    exactly where it comes last, 0 exactly on equal versions, which are
    also the ones [Equal] accepts. *)
Theorem Compare_lexicographic (v o : Version) :
  (Compare v o = (-1)%Z <->
     Major v < Major o \/ (Major v = Major o /\ Minor v < Minor o))
  /\ (Compare v o = 1%Z <->
        Major o < Major v \/ (Major v = Major o /\ Minor o < Minor v))
  /\ (Compare v o = 0%Z <-> v = o)
  /\ (Equal v o = true <-> v = o)
  /\ (Compare v o = (-1)%Z \/ Compare v o = 0%Z \/ Compare v o = 1%Z).
Proof.
  unfold Equal. rewrite Z.eqb_eq. unfold Compare.
  destruct (compareField_cases (Major v) (Major o)) as [[L ->]|[[E ->]|[L ->]]].
  - repeat split; try (intros; lia); auto.
    + intros ->. lia.
    + intros ->. lia.
  - destruct (compareField_cases (Minor v) (Minor o)) as [[L ->]|[[E' ->]|[L ->]]].
    + repeat split; try (intros; lia); auto.
      * intros ->. lia.
      * intros ->. lia.
    + repeat split; try (intros; lia); auto using Version_eq.
    + repeat split; try (intros; lia); auto.
      * intros ->. lia.
      * intros ->. lia.
  - repeat split; try (intros; lia); auto.
    + intros ->. lia.
    + intros ->. lia.
Qed.

(** X2: swapping the two versions negates the answer of [Compare]. *)
Theorem Compare_swap (v o : Version) : Compare o v = (- Compare v o)%Z.
Proof.
  unfold Compare.
  destruct (compareField_cases (Major v) (Major o)) as [[L ->]|[[E ->]|[L ->]]];
    destruct (compareField_cases (Major o) (Major v)) as [[L1 ->]|[[E1 ->]|[L1 ->]]];
    try lia; try reflexivity.
  destruct (compareField_cases (Minor v) (Minor o)) as [[L ->]|[[E' ->]|[L ->]]];
    destruct (compareField_cases (Minor o) (Minor v)) as [[L2 ->]|[[E2 ->]|[L2 ->]]];
    try lia; reflexivity.
Qed.

Lemma IsSupersetOf_cases v o :
  IsSupersetOf v o = true <->
  (Major v = 0 /\ v = o)
  \/ (Major v <> 0 /\ Major v = Major o /\ Minor o <= Minor v).
Proof.
  unfold IsSupersetOf. destruct (N.eqb_spec (Major v) 0) as [H0|H0].
  - rewrite claims_api.Equal_iff. split.
    + intros E. left. split; [exact H0|exact E].
    + intros [[_ E]|[Hn _]]; [exact E|contradiction].
  - rewrite andb_true_iff, N.eqb_eq, N.leb_le. split.
    + intros [E L]. right. split; [exact H0|]. split; [exact E|exact L].
    + intros [[Hz _]|(_ & E & L)]; [contradiction|split; [exact E|exact L]].
Qed.

(** X3: [IsSupersetOf] is a partial order on versions: every version is
    a superset of itself, two versions that are supersets of each other
    are equal, and a superset of a superset is a superset. *)
Theorem IsSupersetOf_order :
  (forall v, IsSupersetOf v v = true)
  /\ (forall v o, IsSupersetOf v o = true -> IsSupersetOf o v = true -> v = o)
  /\ (forall v o w,
        IsSupersetOf v o = true -> IsSupersetOf o w = true -> IsSupersetOf v w = true).
Proof.
  split; [|split].
  - intros v. apply IsSupersetOf_cases.
    destruct (N.eq_dec (Major v) 0) as [E|E]; [left|right]; repeat split; auto.
  - intros v o H1 H2.
    apply IsSupersetOf_cases in H1 as [[_ E]|(_ & E1 & L1)]; [exact E|].
    apply IsSupersetOf_cases in H2 as [[_ E]|(_ & E2 & L2)]; [symmetry; exact E|].
    apply Version_eq; [exact E1|lia].
  - intros v o w H1 H2. apply IsSupersetOf_cases.
    apply IsSupersetOf_cases in H1 as [[Z1 E]|(N1 & E1 & L1)].
    + subst o. apply IsSupersetOf_cases in H2. exact H2.
    + apply IsSupersetOf_cases in H2 as [[Z2 E]|(N2 & E2 & L2)]; [congruence|].
      right. split; [exact N1|]. split; [congruence|lia].
Qed.

(** X4: a version that is a superset of another has the same major and
    is not older: [Compare] answers 0 or 1 for it, never -1. *)
Theorem IsSupersetOf_not_older (v o : Version) :
  IsSupersetOf v o = true ->
  Major v = Major o /\ (Compare v o = 0%Z \/ Compare v o = 1%Z).
Proof.
  intros H. apply IsSupersetOf_cases in H as [[_ <-]|(_ & E & L)].
  - split; [reflexivity|]. left. unfold Compare.
    destruct (compareField_cases (Major v) (Major v)) as [[X _]|[[_ ->]|[X _]]];
      [lia| |lia].
    destruct (compareField_cases (Minor v) (Minor v)) as [[X _]|[[_ ->]|[X _]]];
      [lia|reflexivity|lia].
  - split; [exact E|]. unfold Compare.
    destruct (compareField_cases (Major v) (Major o)) as [[X _]|[[_ ->]|[X _]]];
      [lia| |lia].
    destruct (compareField_cases (Minor v) (Minor o)) as [[X _]|[[_ ->]|[X ->]]];
      [lia|left; reflexivity|right; reflexivity].
Qed.

(** [IsSupersetOf_not_older] on the platform 1.5 and a plugin for 1.3. *)
Lemma superset_example :
  Major {| Major := 1; Minor := 5 |} = Major {| Major := 1; Minor := 3 |}
  /\ (Compare {| Major := 1; Minor := 5 |} {| Major := 1; Minor := 3 |} = 0%Z
      \/ Compare {| Major := 1; Minor := 5 |} {| Major := 1; Minor := 3 |} = 1%Z).
Proof.
  apply (IsSupersetOf_not_older {| Major := 1; Minor := 5 |} {| Major := 1; Minor := 3 |}).
  reflexivity.
Defined.

(** *** Decimal printing and reading *)

Lemma digit_char d : d < 10 ->
  isDigit (pretty_N_char d) = true /\ digitVal (pretty_N_char d) = d.
Proof.
  intros H.
  assert (C : d = 0 \/ d = 1 \/ d = 2 \/ d = 3 \/ d = 4 \/ d = 5 \/ d = 6 \/ d = 7
              \/ d = 8 \/ d = 9) by lia.
  destruct C as [->|[->|[->|[->|[->|[->|[->|[->|[->| ->]]]]]]]]]; split; reflexivity.
Qed.

Lemma go_digits x : forall s, allDigits s = true -> allDigits (pretty_N_go x s) = true.
Proof.
  induction (N.lt_wf_0 x) as [x _ IH]. intros s Hs.
  destruct (N.eq_dec x 0) as [->|Hx]; [exact Hs|].
  rewrite pretty_N_go_step by lia. apply IH; [apply N.div_lt; lia|].
  cbn [allDigits]. rewrite Hs, andb_true_r.
  apply digit_char. apply N.mod_lt. discriminate.
Qed.

Lemma go_value x : forall s, valueFrom 0 (pretty_N_go x s) = valueFrom x s.
Proof.
  induction (N.lt_wf_0 x) as [x _ IH]. intros s.
  destruct (N.eq_dec x 0) as [->|Hx]; [reflexivity|].
  rewrite pretty_N_go_step by lia. rewrite IH by (apply N.div_lt; lia).
  cbn [valueFrom].
  rewrite (proj2 (digit_char (x mod 10) (N.mod_lt x 10 ltac:(discriminate)))).
  f_equal. symmetry. apply N.div_mod. discriminate.
Qed.

Lemma go_nonempty x : forall s, s <> "" -> pretty_N_go x s <> "".
Proof.
  induction (N.lt_wf_0 x) as [x _ IH]. intros s Hs.
  destruct (N.eq_dec x 0) as [->|Hx]; [exact Hs|].
  rewrite pretty_N_go_step by lia. apply IH; [apply N.div_lt; lia|discriminate].
Qed.

(** The decimal text of a number is a non-empty run of digits that
    reads back as the number. *)
Lemma pretty_reads_back (n : N) :
  pretty n <> "" /\ allDigits (pretty n) = true /\ value (pretty n) = n.
Proof.
  unfold pretty, pretty_N. destruct (decide (n = 0)) as [->|Hn].
  - repeat split. discriminate.
  - split; [|split].
    + rewrite pretty_N_go_step by lia. apply go_nonempty. discriminate.
    + apply go_digits. reflexivity.
    + unfold value. rewrite go_value. reflexivity.
Qed.

Lemma VersionString_denotes v : fits v -> denotes (VersionString v) v.
Proof.
  intros [HM Hm].
  destruct (pretty_reads_back (Major v)) as (N1 & D1 & V1).
  destruct (pretty_reads_back (Minor v)) as (N2 & D2 & V2).
  exists false, (pretty (Major v)), (Some (pretty (Minor v))).
  split; [split; [reflexivity|split; [exact N1|split; [exact D1|exact D2]]]|].
  cbn [minorDigits]. rewrite V1, V2.
  split; [exact HM|]. split; [exact Hm|]. destruct v; reflexivity.
Qed.

(** X5: the text that [String] gives for a version of two [uint64]
    fields parses back to that version, so that [MustParse] never panics
    on it. *)
Theorem String_parses_back (v : Version) :
  fits v ->
  NewVersion (VersionString v) = inr v /\ MustParse (VersionString v) = inr v.
Proof.
  intros Hv. unfold MustParse.
  assert (H : NewVersion (VersionString v) = inr v)
    by (apply NewVersion_denotes, VersionString_denotes, Hv).
  split; exact H.
Qed.

(** [String_parses_back] on the largest version there is. *)
Lemma largest_version_example :
  NewVersion "18446744073709551615.18446744073709551615"
  = inr {| Major := 18446744073709551615; Minor := 18446744073709551615 |}.
Proof.
  refine (proj1 (String_parses_back
                   {| Major := 18446744073709551615; Minor := 18446744073709551615 |} _)).
  split; vm_compute; discriminate.
Defined.

Lemma denotes_fits s v : denotes s v -> fits v.
Proof. intros (b & major & minor & _ & R1 & R2 & ->). split; assumption. Qed.

(** X6: whatever [NewVersion] returns has two [uint64] fields, and
    printing it with [String] and parsing the text again gives the same
    version. *)
Theorem parse_print_parse (s : string) (v : Version) :
  NewVersion s = inr v ->
  fits v /\ NewVersion (VersionString v) = inr v.
Proof.
  intros H. apply NewVersion_denotes, denotes_fits in H.
  split; [exact H|]. apply NewVersion_denotes, VersionString_denotes, H.
Qed.

(** [parse_print_parse] on a text with a [v] and leading zeros. *)
Lemma canonical_text_example :
  fits {| Major := 1; Minor := 2 |}
  /\ NewVersion (VersionString {| Major := 1; Minor := 2 |})
     = inr {| Major := 1; Minor := 2 |}.
Proof.
  apply (parse_print_parse "v01.002"). vm_compute. reflexivity.
Defined.

(** X7: [String] tells versions apart: two versions print alike exactly
    when they are equal. *)
Theorem String_injective (v o : Version) :
  VersionString v = VersionString o <-> v = o.
Proof.
  split; [|intros ->; reflexivity]. unfold VersionString. intros H.
  destruct (pretty_reads_back (Major v)) as (_ & D1 & V1).
  destruct (pretty_reads_back (Major o)) as (_ & D2 & V2).
  destruct (pretty_reads_back (Minor v)) as (_ & _ & V3).
  destruct (pretty_reads_back (Minor o)) as (_ & _ & V4).
  pose proof (spanDigits_unique (pretty (Major v)) ("." +:+ pretty (Minor v)) D1 eq_refl) as S1.
  pose proof (spanDigits_unique (pretty (Major o)) ("." +:+ pretty (Minor o)) D2 eq_refl) as S2.
  rewrite H, S2 in S1. injection S1 as E1 E2.
  change (pretty (Minor o) = pretty (Minor v)) in E2.
  apply Version_eq; [rewrite <- V1, <- V2, E1|rewrite <- V3, <- V4, E2]; reflexivity.
Qed.

(** X8: [MarshalText] never fails, and [UnmarshalText] on the text it
    gives for a version of two [uint64] fields sets any receiver to that
    version, without error. *)
Theorem Marshal_Unmarshal (receiver v : Version) :
  fits v ->
  snd (MarshalText v) = None
  /\ UnmarshalText receiver (fst (MarshalText v)) = (v, None).
Proof.
  intros Hv. split; [reflexivity|]. unfold MarshalText, UnmarshalText. cbn [fst].
  rewrite (proj2 (NewVersion_denotes _ _) (VersionString_denotes v Hv)).
  destruct v. reflexivity.
Qed.

(** [Marshal_Unmarshal] on the version 0.4, read into 7.7. *)
Lemma marshal_example :
  snd (MarshalText {| Major := 0; Minor := 4 |}) = None
  /\ UnmarshalText {| Major := 7; Minor := 7 |} (fst (MarshalText {| Major := 0; Minor := 4 |}))
     = ({| Major := 0; Minor := 4 |}, None).
Proof.
  apply (Marshal_Unmarshal {| Major := 7; Minor := 7 |} {| Major := 0; Minor := 4 |}).
  split; vm_compute; discriminate.
Defined.

Lemma NewVersion_by_scan x y ver :
  scan x = scan y -> (NewVersion x = inr ver <-> NewVersion y = inr ver).
Proof.
  intros E. rewrite !NewVersion_scan, E.
  destruct (scan y) as [[a b]|]; [reflexivity|].
  split; intros H; discriminate H.
Qed.

(** X9: a leading [v] changes nothing: the text with a [v] in front
    parses to a version exactly when the text starts with a digit and
    parses to that version without it. *)
Theorem leading_v_is_optional (s : string) (ver : Version) :
  NewVersion (String "v" s) = inr ver
  <-> startsWithDigit s = true /\ NewVersion s = inr ver.
Proof.
  destruct (startsWithDigit s) eqn:D.
  - rewrite (NewVersion_by_scan (String "v" s) s ver).
    + split; [intros H; split; [reflexivity|exact H]|intros [_ H]; exact H].
    + rewrite !scan_eq. cbn [skip]. change (Ascii.eqb "v" "v") with true.
      cbn iota. rewrite (skip_no_digit "v" s eq_refl D). reflexivity.
  - split; [|intros [H _]; discriminate H].
    rewrite NewVersion_scan, scan_eq. cbn [skip].
    change (Ascii.eqb "v" "v") with true. cbn iota.
    rewrite (spanDigits_no_digit s D). cbn [fst]. intros H. discriminate H.
Qed.




End version_facts.

(** ** cmd/lifecycle/builder.go *)

Module builder_more.
Import lifecycle exec main observe further builder_facts claims_builder.

(** X11: whatever the files and the answers of the outside, [Exec] itself
    never changes identity, never loads a user's environment, never
    builds in its own process and never writes the metadata; and it
    launches at most one child. *)
Theorem Exec_stays_out_of_process (W : World) (b : buildCmd) :
  Forall (fun ev => isInProcessStep ev = false) (trace (Exec W b))
  /\ (length (List.filter isChildRun (trace (Exec W b))) <= 1)%nat.
Proof.
  unfold Exec. destruct (readData W b) as [e|[[group stackGroup] plan]].
  { split; [constructor|cbn; lia]. }
  destruct (Group stackGroup) as [|bp more] eqn:G; cbn [length Nat.ltb Nat.leb].
  - destruct (buildAsSubProcess_runs W (ba b)) as [(err & _ & ->)|(exe & c & _ & _ & R & _)].
    + split; [constructor|cbn; lia].
    + rewrite R. split; [repeat constructor|cbn; lia].
  - destruct (buildAll_ends W (ba b) group stackGroup plan)
      as [e _|e _ _|e _ _|bld e _ _|bld md _ _ _|bld md _ _ _]; cbn [trace fst].
    + split; [constructor|cbn; lia].
    + split; [repeat constructor|cbn; lia].
    + split; [repeat constructor|cbn; lia].
    + split; [repeat constructor|cbn; lia].
    + split; [repeat constructor|cbn; lia].
    + destruct (buildAsSubProcess_runs W (ba b))
        as [(err & _ & ->)|(exe & c & _ & _ & R & _)]; [|rewrite R];
        (split; [repeat constructor|cbn; lia]).
Qed.

(** X12: [build] starts by changing identity; it succeeds exactly when
    the change of identity, the loading of the environment, the build and
    the writing of the metadata all succeed; it builds only after the
    first two have succeeded; and what it writes is the metadata that the
    build returned, at the metadata path of the layers directory. *)
Theorem build_protocol (W : World) (a : buildArgs) (builder : Builder) :
  hd_error (trace (build W a builder)) = Some (EvRunAs (uid a) (gid a))
  /\ (outcome (build W a builder) = Ok tt <->
        RunAs W (uid a) (gid a) = None
        /\ SetEnvironmentForUser W (uid a) = None
        /\ exists md, Build W builder = inr md
                      /\ WriteTOML W (GetMetadataFilePath W (layersDir a)) md = None)
  /\ (forall builder', In (EvBuild builder') (trace (build W a builder)) ->
        builder' = builder
        /\ RunAs W (uid a) (gid a) = None
        /\ SetEnvironmentForUser W (uid a) = None)
  /\ (forall path md, In (EvWriteTOML path md) (trace (build W a builder)) ->
        path = GetMetadataFilePath W (layersDir a) /\ Build W builder = inr md).
Proof.
  unfold build, call, call_, orReturn.
  destruct (RunAs W (uid a) (gid a)) as [e1|] eqn:R1; cbn.
  { split; [reflexivity|]. split; [split; [intros H; discriminate H|intros [H _]; discriminate H]|].
    split; [intros ? [H|[]]; discriminate H|intros ? ? [H|[]]; discriminate H]. }
  destruct (SetEnvironmentForUser W (uid a)) as [e2|] eqn:R2; cbn.
  { split; [reflexivity|].
    split; [split; [intros H; discriminate H|intros (_ & H & _); discriminate H]|].
    split; [intros ? [H|[H|[]]]; discriminate H|intros ? ? [H|[H|[]]]; discriminate H]. }
  destruct (Build W builder) as [e3|md] eqn:R3; cbn.
  { split; [reflexivity|].
    split; [split; [intros H; discriminate H|intros (_ & _ & md & H & _); discriminate H]|].
    split.
    - intros ? [H|[H|[H|[]]]]; try discriminate H. injection H as <-. repeat split.
    - intros ? ? [H|[H|[H|[]]]]; discriminate H. }
  destruct (WriteTOML W (GetMetadataFilePath W (layersDir a)) md) as [e4|] eqn:R4; cbn.
  - split; [reflexivity|]. split; [|split].
    + split; [intros H; discriminate H|].
      intros (_ & _ & md' & E & H). injection E as <-. rewrite R4 in H. discriminate H.
    + intros ? [H|[H|[H|[H|[]]]]]; try discriminate H. injection H as <-. repeat split.
    + intros ? ? [H|[H|[H|[H|[]]]]]; try discriminate H. injection H as <- <-. repeat split.
  - split; [reflexivity|]. split; [|split].
    + split; [|reflexivity]. intros _. repeat split. exists md. split; [reflexivity|exact R4].
    + intros ? [H|[H|[H|[H|[]]]]]; try discriminate H. injection H as <-. repeat split.
    + intros ? ? [H|[H|[H|[H|[]]]]]; try discriminate H. injection H as <- <-. repeat split.
Qed.

(** X13: the child that [buildAsSubProcess] launches is told the group
    path and the plan path and nothing else: two configurations that
    agree on the uid, the gid and these two paths launch the same child
    and end alike, whatever their directories and platform API; and the
    arguments of the child are the two flags, each followed by its
    path. *)
Theorem buildAsSubProcess_frame (W : World) (a a' : buildArgs) :
  uid a = uid a' -> gid a = gid a' ->
  groupPath a = groupPath a' -> planPath a = planPath a' ->
  buildAsSubProcess W a = buildAsSubProcess W a'
  /\ forall c, In (EvRun c) (trace (buildAsSubProcess W a)) ->
       exec.Args c = [exec.Path c;
                      "-" +:+ FlagNameGroupPath W; groupPath a';
                      "-" +:+ FlagNamePlanPath W; planPath a'].
Proof.
  intros Hu Hg Hgp Hpp. unfold buildAsSubProcess. rewrite Hu, Hg, Hgp, Hpp.
  split; [reflexivity|]. destruct (Executable W) as [err|exe].
  - intros c [].
  - intros c [H|[]]. injection H as <-. reflexivity.
Qed.

(** X13 on two configurations that differ in every directory and in the
    platform API. *)
Lemma same_child_example :
  buildAsSubProcess examples.twoStage (examples.args 1000 1000)
  = buildAsSubProcess examples.twoStage
      {| uid := 1000; gid := 1000;
         groupPath := "/layers/group.toml"; planPath := "/layers/plan.toml";
         buildpacksDir := "/other/buildpacks"; layersDir := "/other/layers";
         appDir := "/other/app"; platformDir := "/other/platform";
         platformAPI := "not a version" |}.
Proof.
  refine (proj1 (buildAsSubProcess_frame examples.twoStage (examples.args 1000 1000)
                   {| uid := 1000; gid := 1000;
                      groupPath := "/layers/group.toml"; planPath := "/layers/plan.toml";
                      buildpacksDir := "/other/buildpacks"; layersDir := "/other/layers";
                      appDir := "/other/app"; platformDir := "/other/platform";
                      platformAPI := "not a version" |} _ _ _ _)); reflexivity.
Defined.

(** X14: an error of [readData] is the error of the first read that
    failed, wrapped by [FailErr] under the name of that read: the app
    group file, which is read only if it is there; else the stack group
    file, likewise; else the plan file, which is read always and only
    after both groups were got. *)
Theorem readData_errors (W : World) (b : buildCmd) (err : error) :
  readData W b = inl err ->
  exists cause,
    (err = FailErr cause ["read buildpack group"]
     /\ Stat W (groupPath (ba b)) = true
     /\ ReadGroup W (groupPath (ba b)) = inl cause)
    \/ (err = FailErr cause ["read stack buildpack group"]
        /\ Stat W (stackGroupPath b) = true
        /\ ReadGroup W (stackGroupPath b) = inl cause
        /\ exists group, groupAt W (groupPath (ba b)) group)
    \/ (err = FailErr cause ["parse detect plan"]
        /\ DecodeFile W (planPath (ba b)) = inl cause
        /\ (exists group, groupAt W (groupPath (ba b)) group)
        /\ exists stackGroup, groupAt W (stackGroupPath b) stackGroup).
Proof.
  unfold readData.
  destruct (if Stat W (groupPath (ba b)) then _ else _) as [e1|g1] eqn:R1.
  { intros [= <-]. exists e1. left. split; [reflexivity|].
    destruct (Stat W (groupPath (ba b))); [split; [reflexivity|exact R1]|discriminate R1]. }
  apply group_read in R1.
  destruct (if Stat W (stackGroupPath b) then _ else _) as [e2|g2] eqn:R2.
  { intros [= <-]. exists e2. right. left. split; [reflexivity|].
    destruct (Stat W (stackGroupPath b)); [|discriminate R2].
    split; [reflexivity|]. split; [exact R2|]. exists g1. exact R1. }
  apply group_read in R2.
  destruct (DecodeFile W (planPath (ba b))) as [e3|p3] eqn:R3; [|intros H; discriminate H].
  intros [= <-]. exists e3. right. right. split; [reflexivity|]. split; [reflexivity|].
  split; [exists g1; exact R1|exists g2; exact R2].
Qed.

(** X14 where the app group file does not decode and there is no plan
    file: the error names the group. *)
Lemma group_error_example :
  exists cause,
    (FailErr (New "toml: cannot decode the group") ["read buildpack group"]
       = FailErr cause ["read buildpack group"]
     /\ Stat badGroup "/layers/group.toml" = true
     /\ ReadGroup badGroup "/layers/group.toml" = inl cause)
    \/ (FailErr (New "toml: cannot decode the group") ["read buildpack group"]
          = FailErr cause ["read stack buildpack group"]
        /\ Stat badGroup "/layers/stack-group.toml" = true
        /\ ReadGroup badGroup "/layers/stack-group.toml" = inl cause
        /\ exists group, groupAt badGroup "/layers/group.toml" group)
    \/ (FailErr (New "toml: cannot decode the group") ["read buildpack group"]
          = FailErr cause ["parse detect plan"]
        /\ DecodeFile badGroup "/layers/plan.toml" = inl cause
        /\ (exists group, groupAt badGroup "/layers/group.toml" group)
        /\ exists stackGroup, groupAt badGroup "/layers/stack-group.toml" stackGroup).
Proof.
  refine (readData_errors badGroup (examples.command 1000 1000)
            (FailErr (New "toml: cannot decode the group") ["read buildpack group"]) _).
  vm_compute. reflexivity.
Defined.

(** X15: [Privileges] lets the command run exactly where the data is
    read and either there are stack plugins or the process is not
    privileged; every error it returns is the error of [readData] or the
    refusal to run as root; and an error of [readData] is what
    [Privileges] and [Exec] alike return, [Exec] before it did
    anything. *)
Theorem Privileges_verdict (W : World) (b : buildCmd) :
  (Privileges W b = None <->
     exists group stackGroup plan,
       readData W b = inr (group, stackGroup, plan)
       /\ (Group stackGroup <> [] \/ IsPrivileged W = false))
  /\ (forall e, Privileges W b = Some e ->
        readData W b = inl e
        \/ e = FailErr (New "refusing to run as root") ["build"])
  /\ (forall e, readData W b = inl e ->
        Privileges W b = Some e /\ Exec W b = ([], Err e)).
Proof.
  unfold Privileges, Exec.
  destruct (readData W b) as [e|[[group stackGroup] plan]].
  { split; [split; [intros H; discriminate H|intros (? & ? & ? & H & _); discriminate H]|].
    split; [intros ? [= <-]; left; reflexivity|intros ? [= <-]; split; reflexivity]. }
  split; [|split; [|intros ? H; discriminate H]].
  - destruct (Group stackGroup) as [|bp more] eqn:G; cbn [length Nat.eqb andb].
    + destruct (IsPrivileged W); split.
      * intros H. discriminate H.
      * intros (g & sg & p & [= <- <- <-] & [H|H]); [congruence|discriminate H].
      * intros _. exists group, stackGroup, plan. split; [reflexivity|right; reflexivity].
      * reflexivity.
    + split; [|reflexivity]. intros _. exists group, stackGroup, plan.
      split; [reflexivity|left; rewrite G; discriminate].
  - intros e. destruct (_ && _); [|intros H; discriminate H].
    intros [= <-]. right. reflexivity.
Qed.

(** X16: [createBuilder] makes the snapshotter, of the root directory
    always, and does nothing else to the outside; it returns the error of
    the snapshotter if there is one; else it panics exactly where the
    platform API is no version text, with the error of [NewVersion]; else
    the builder it returns holds the version the platform API denotes,
    the snapshotter, the groups and the plan it was given, the
    directories of the configuration and the build environment that
    [env.NewBuildEnv] makes of the environment of the process. *)
Theorem createBuilder_outcome (W : World) (a : buildArgs)
    (group stackGroup : BuildpackGroup) (plan : BuildPlan) :
  trace (createBuilder W a group stackGroup plan) = [EvNewKanikoSnapshotter "/"]
  /\ (forall e, outcome (createBuilder W a group stackGroup plan) = Err e <->
        NewKanikoSnapshotter W "/" = inl e)
  /\ (forall e, outcome (createBuilder W a group stackGroup plan) = Panic e <->
        (exists snap, NewKanikoSnapshotter W "/" = inr snap)
        /\ api.NewVersion (platformAPI a) = inl e)
  /\ (forall bld, outcome (createBuilder W a group stackGroup plan) = Ok bld ->
        syntax.denotes (platformAPI a) (PlatformAPI bld)
        /\ NewKanikoSnapshotter W "/" = inr (Snapshotter_ bld)
        /\ Group_ bld = group /\ StackGroup bld = stackGroup /\ Plan bld = plan
        /\ AppDir bld = appDir a /\ LayersDir bld = layersDir a
        /\ PlatformDir bld = platformDir a /\ BuildpacksDir bld = buildpacksDir a
        /\ Env bld = NewBuildEnv W (Environ W)).
Proof.
  unfold createBuilder, call, api.MustParse.
  destruct (NewKanikoSnapshotter W "/") as [e0|snap]; cbn [mbind M_bind].
  { split; [reflexivity|]. split; [intros e; split; intros [= <-]; reflexivity|].
    split; [intros e; split; [intros H; discriminate H|intros [[? H] _]; discriminate H]|].
    intros bld H. discriminate H. }
  destruct (api.NewVersion (platformAPI a)) as [e1|v] eqn:NV; cbn.
  { split; [reflexivity|]. split; [intros e; split; intros H; discriminate H|].
    split; [|intros bld H; discriminate H].
    intros e; split; [intros [= <-]; split; [exists snap|]; reflexivity|].
    intros [_ [= <-]]. reflexivity. }
  split; [reflexivity|]. split; [intros e; split; intros H; discriminate H|].
  split; [intros e; split; [intros H; discriminate H|intros [_ H]; discriminate H]|].
  intros bld [= <-]. cbn. split; [|repeat split].
  apply api_facts.NewVersion_denotes. exact NV.
Qed.

(** X17: with stack plugins and no app plugin, [Exec] launches no child
    and builds nothing in its own process, and it succeeds exactly where
    it got as far as the stack build and the stack build returned without
    error. *)
Theorem stack_only_build (W : World) (b : buildCmd)
    (group stackGroup : BuildpackGroup) (plan : BuildPlan) :
  readData W b = inr (group, stackGroup, plan) ->
  Group stackGroup <> [] ->
  Group group = [] ->
  filter isAppExecution (trace (Exec W b)) = []
  /\ (outcome (Exec W b) = Ok tt <->
        exists builder md,
          trace (Exec W b) = [EvNewKanikoSnapshotter "/"; EvStackBuild builder]
          /\ StackBuild W builder = inr md).
Proof.
  intros Hread Hs Hg. rewrite (Exec_stack _ _ _ _ _ Hread Hs).
  destruct (buildAll_ends W (ba b) group stackGroup plan)
    as [e _|e _ _|e _ _|bld e _ Hsb|bld md _ Hsb _|bld md _ _ Hg'];
    cbn [trace outcome fst snd].
  - split; [reflexivity|]. split; [intros H; discriminate H|intros (? & ? & H & _); discriminate H].
  - split; [reflexivity|]. split; [intros H; discriminate H|intros (? & ? & H & _); discriminate H].
  - split; [reflexivity|]. split; [intros H; discriminate H|intros (? & ? & H & _); discriminate H].
  - split; [reflexivity|]. split; [intros H; discriminate H|].
    intros (bld' & md & [= <-] & H). rewrite Hsb in H. discriminate H.
  - split; [reflexivity|]. split; [|reflexivity]. intros _. exists bld, md.
    split; [reflexivity|exact Hsb].
  - contradiction.
Qed.

(** X17 on a privileged build with a stack group file and no app group
    file. *)
Lemma stack_only_example :
  filter isAppExecution (trace (Exec stackOnly (examples.command 1000 1000))) = []
  /\ (outcome (Exec stackOnly (examples.command 1000 1000)) = Ok tt <->
        exists builder md,
          trace (Exec stackOnly (examples.command 1000 1000))
          = [EvNewKanikoSnapshotter "/"; EvStackBuild builder]
          /\ StackBuild stackOnly builder = inr md).
Proof.
  refine (stack_only_build stackOnly (examples.command 1000 1000)
            emptyGroup examples.stackGroup examples.thePlan _ _ _).
  - vm_compute. reflexivity.
  - discriminate.
  - reflexivity.
Defined.

(** The builder of every stack build in a run of [buildAll] is the one
    [createBuilder] made. *)
Lemma buildAll_builder W a group stackGroup plan bld :
  In (EvStackBuild bld) (trace (buildAll W a group stackGroup plan)) ->
  exists snap v,
    NewKanikoSnapshotter W "/" = inr snap
    /\ api.NewVersion (platformAPI a) = inr v
    /\ bld = {| AppDir := appDir a; LayersDir := layersDir a;
                PlatformDir := platformDir a; BuildpacksDir := buildpacksDir a;
                PlatformAPI := v; Env := NewBuildEnv W (Environ W);
                Group_ := group; StackGroup := stackGroup;
                Plan := plan; Snapshotter_ := snap |}.
Proof.
  unfold buildAll.
  destruct (verifyBuildpackApis W (Group group)) as [e|]; [intros []|].
  destruct (verifyBuildpackApis W (Group stackGroup)) as [e|]; [intros []|].
  unfold createBuilder, stackBuild, call, orReturn, api.MustParse.
  destruct (NewKanikoSnapshotter W "/") as [e|snap]; [intros [H|[]]; discriminate H|].
  destruct (api.NewVersion (platformAPI a)) as [e|v]; [intros [H|[]]; discriminate H|].
  cbn [mbind M_bind mret M_ret check app].
  assert (K : forall bld', In (EvStackBuild bld) [EvNewKanikoSnapshotter "/"; EvStackBuild bld']
                           -> bld = bld').
  { intros bld' [H|[H|[]]]; [discriminate H|]. injection H as <-. reflexivity. }
  destruct (StackBuild W _) as [e|md].
  { intros H. apply K in H. exists snap, v. repeat split. exact H. }
  cbn [mbind M_bind mret M_ret check app].
  destruct (Group group) as [|bp more]; cbn [length Nat.ltb Nat.leb].
  { intros H. apply K in H. exists snap, v. repeat split. exact H. }
  destruct (buildAsSubProcess_runs W a) as [(err & _ & ->)|(exe & c & _ & _ & R & _)].
  { intros H. apply K in H. exists snap, v. repeat split. exact H. }
  destruct (buildAsSubProcess W a) as [tr' o']. cbn [trace fst] in R. subst tr'.
  cbn [trace fst app]. intros [H|[H|[H|[]]]]; try discriminate H.
  exists snap, v. repeat split. injection H as <-. reflexivity.
Qed.

(** X18: a stack build in a run of [Exec] is given what [readData] read
    and what the command was configured with: the builder holds the two
    groups and the plan of the files, of which the stack group is not
    empty, the four directories of the configuration and the version its
    platform API denotes. *)
Theorem Exec_stack_build_input (W : World) (b : buildCmd) (bld : Builder) :
  In (EvStackBuild bld) (trace (Exec W b)) ->
  readData W b = inr (Group_ bld, StackGroup bld, Plan bld)
  /\ Group (StackGroup bld) <> []
  /\ AppDir bld = appDir (ba b) /\ LayersDir bld = layersDir (ba b)
  /\ PlatformDir bld = platformDir (ba b) /\ BuildpacksDir bld = buildpacksDir (ba b)
  /\ syntax.denotes (platformAPI (ba b)) (PlatformAPI bld).
Proof.
  unfold Exec. destruct (readData W b) as [e|[[group stackGroup] plan]]; [intros []|].
  destruct (Group stackGroup) as [|bp more] eqn:G; cbn [length Nat.ltb Nat.leb].
  { destruct (buildAsSubProcess_runs W (ba b)) as [(err & _ & ->)|(exe & c & _ & _ & R & _)].
    - intros [].
    - rewrite R. intros [H|[]]. discriminate H. }
  intros Hin. apply buildAll_builder in Hin as (snap & v & _ & NV & ->). cbn.
  split; [reflexivity|]. split; [rewrite G; discriminate|].
  repeat (split; [reflexivity|]). apply api_facts.NewVersion_denotes. exact NV.
Qed.

(** X18 on the stack build of a two-stage build. *)
Lemma stack_build_input_example :
  readData examples.twoStage (examples.command 1000 1000)
  = inr (Group_ (examples.builderOf examples.twoStage examples.appGroup examples.stackGroup),
         StackGroup (examples.builderOf examples.twoStage examples.appGroup examples.stackGroup),
         Plan (examples.builderOf examples.twoStage examples.appGroup examples.stackGroup)).
Proof.
  refine (proj1 (Exec_stack_build_input examples.twoStage (examples.command 1000 1000)
                   (examples.builderOf examples.twoStage examples.appGroup examples.stackGroup)
                   _)).
  vm_compute. right. left. reflexivity.
Defined.

(** Where a run of [Exec] that panics has been. *)
Lemma Exec_panic_inv W b e :
  outcome (Exec W b) = Panic e ->
  (exists group stackGroup plan snap,
     readData W b = inr (group, stackGroup, plan)
     /\ Group stackGroup <> []
     /\ apisVerified W group stackGroup
     /\ NewKanikoSnapshotter W "/" = inr snap
     /\ api.NewVersion (platformAPI (ba b)) = inl e)
  /\ trace (Exec W b) = [EvNewKanikoSnapshotter "/"].
Proof.
  unfold Exec. destruct (readData W b) as [e0|[[group stackGroup] plan]];
    [intros H; discriminate H|].
  destruct (Group stackGroup) as [|bp more] eqn:G; cbn [length Nat.ltb Nat.leb].
  { destruct (buildAsSubProcess_runs W (ba b)) as [(err & _ & ->)|(exe & c & _ & _ & _ & R)];
      [intros H; discriminate H|].
    rewrite R. destruct (Run W c); intros H; discriminate H. }
  assert (Hne : Group stackGroup <> []) by (rewrite G; discriminate).
  unfold buildAll, apisVerified.
  destruct (verifyBuildpackApis W (Group group)) as [e1|] eqn:V1; [intros H; discriminate H|].
  destruct (verifyBuildpackApis W (Group stackGroup)) as [e2|] eqn:V2;
    [intros H; discriminate H|].
  unfold createBuilder, stackBuild, call, orReturn, api.MustParse.
  destruct (NewKanikoSnapshotter W "/") as [e3|snap] eqn:NS; [intros H; discriminate H|].
  destruct (api.NewVersion (platformAPI (ba b))) as [e4|v] eqn:NV.
  { intros [= <-]. split; [|reflexivity].
    exists group, stackGroup, plan, snap. repeat split; assumption. }
  cbn [mbind M_bind mret M_ret check app].
  destruct (StackBuild W _) as [e5|md]; [intros H; discriminate H|].
  cbn [mbind M_bind mret M_ret check app].
  destruct (Group group) as [|bp' more']; cbn [length Nat.ltb Nat.leb];
    [intros H; discriminate H|].
  destruct (buildAsSubProcess_runs W (ba b)) as [(err & _ & ->)|(exe & c & _ & _ & _ & R)];
    [intros H; discriminate H|].
  destruct (buildAsSubProcess W (ba b)) as [tr' o']. cbn [outcome snd] in R. subst o'.
  cbn [outcome snd]. destruct (Run W c); intros H; discriminate H.
Qed.

(** X19: [Exec] panics only on the path of the stack build: exactly
    where the data was read with stack plugins, the API versions of both
    groups were accepted, the snapshotter was made and the platform API
    is no version text; the snapshotter is then all it did.  Without
    stack plugins the platform API is never read. *)
Theorem Exec_panics (W : World) (b : buildCmd) (e : error) :
  (outcome (Exec W b) = Panic e <->
     exists group stackGroup plan snap,
       readData W b = inr (group, stackGroup, plan)
       /\ Group stackGroup <> []
       /\ apisVerified W group stackGroup
       /\ NewKanikoSnapshotter W "/" = inr snap
       /\ api.NewVersion (platformAPI (ba b)) = inl e)
  /\ (outcome (Exec W b) = Panic e -> trace (Exec W b) = [EvNewKanikoSnapshotter "/"]).
Proof.
  split; [split|].
  - intros H. exact (proj1 (Exec_panic_inv W b e H)).
  - intros (group & stackGroup & plan & snap & Hr & Hs & [V1 V2] & NS & NV).
    rewrite (Exec_stack _ _ _ _ _ Hr Hs). unfold buildAll. rewrite V1, V2.
    unfold createBuilder, call, api.MustParse. rewrite NS, NV. reflexivity.
  - intros H. exact (proj2 (Exec_panic_inv W b e H)).
Qed.

End builder_more.
